(** * Space DJ Agent: the playlist player of [src/App.tsx]

    A shallow embedding of the React component [SpaceDJAgent]: its state
    (the [useState] cells and the [useRef] cells), its event handlers, the
    per-frame spectrum sampler, the bar renderer, the track list and the
    labels, followed by the properties of the player that the specification
    states and by further properties read off the code.

    Conventions of the embedding.
    - A JavaScript [number] that the code only multiplies, divides and
      compares is an exact rational ([Q]); rounding of IEEE doubles and the
      values NaN and Infinity are outside the model, so a media duration is
      a finite number and a bounding rectangle has a positive width wherever
      a statement divides by it.
    - A [Uint8Array] is a [list Byte.byte]; [Array.from] turns it into a list
      of integers.
    - Every handler is a function from the committed state to the next
      committed state: the closure of a handler reads the state of the render
      that created it, and the model takes handlers at a stable render.
    - [setTimeout] and [addEventListener] leave a pending callback in the
      state; a later event runs it. *)

From Stdlib Require Import List String Ascii Bool Arith ZArith NArith QArith Qminmax Lia Lqa.
From Stdlib Require Import Strings.Byte.
From Stdlib Require Import Qround DecimalString.
Import ListNotations.

Local Open Scope string_scope.
Local Open Scope list_scope.

(** ** Strings: the two [String.prototype] methods the upload handler uses *)

Module JsString.

(** [s.endsWith(suffix)] *)
Definition endsWith (s suffix : string) : bool :=
  let n := String.length s in
  let m := String.length suffix in
  if (m <=? n)%nat then String.eqb (substring (n - m) m s) suffix else false.

(** The rest of [s] after its first [n] characters. *)
Fixpoint drop (n : nat) (s : string) : string :=
  match n, s with
  | O, _ => s
  | S _, EmptyString => EmptyString
  | S k, String _ rest => drop k rest
  end.

(** [s.replace(pattern, replacement)] with a string pattern: only the
    first occurrence is replaced. *)
Fixpoint replace (pattern replacement s : string) : string :=
  if prefix pattern s
  then (replacement ++ drop (String.length pattern) s)%string
  else match s with
       | EmptyString => EmptyString
       | String c rest => String c (replace pattern replacement rest)
       end.

End JsString.

(** ** Data model *)

(** The part of a DOM [File] the component reads. *)
Record File := mkFile {
  file_name : string;
  file_type : string
}.

(** [interface Track] *)
Record Track := mkTrack {
  id : string;
  name : string;
  file : File;
  url : string;
  duration : Q
}.

(** The hidden [<audio>] element, as far as the handlers touch it: the
    position, the duration of the loaded media, the volume and the paused
    flag.  What the platform does on its own (loading the media when [src]
    changes, advancing the position) is not part of the model. *)
Record HTMLAudioElement := mkAudio {
  currentTime : Q;
  media_duration : Q;
  media_volume : Q;
  paused : bool
}.

Definition play (a : HTMLAudioElement) : HTMLAudioElement :=
  mkAudio (currentTime a) (media_duration a) (media_volume a) false.

Definition pause (a : HTMLAudioElement) : HTMLAudioElement :=
  mkAudio (currentTime a) (media_duration a) (media_volume a) true.

Definition set_currentTime (t : Q) (a : HTMLAudioElement) : HTMLAudioElement :=
  mkAudio t (media_duration a) (media_volume a) (paused a).

Definition set_media_volume (v : Q) (a : HTMLAudioElement) : HTMLAudioElement :=
  mkAudio (currentTime a) (media_duration a) v (paused a).

(** The analysis graph. *)
Inductive AudioContext := mkAudioContext.

Record AnalyserNode := mkAnalyser {
  fftSize : nat
}.

(** [analyser.frequencyBinCount]: half the transform window. *)
Definition frequencyBinCount (an : AnalyserNode) : nat := fftSize an / 2.

Definition Uint8Array := list byte.

(** [new Uint8Array(n)]: [n] zero bytes. *)
Definition new_Uint8Array (n : nat) : Uint8Array := repeat x00 n.

(** What the platform's analyser holds at one instant: a byte magnitude for
    every bin index. *)
Definition Spectrum := nat -> byte.

Fixpoint fill_from (i : nat) (an : AnalyserNode) (sp : Spectrum) (arr : Uint8Array)
  : Uint8Array :=
  match arr with
  | [] => []
  | old :: rest =>
      (if (i <? frequencyBinCount an)%nat then sp i else old)
        :: fill_from (S i) an sp rest
  end.

(** [analyser.getByteFrequencyData(arr)]: the cells below
    [frequencyBinCount] receive the bin magnitudes, further cells are left
    as they are. *)
Definition getByteFrequencyData (an : AnalyserNode) (sp : Spectrum) (arr : Uint8Array)
  : Uint8Array :=
  fill_from 0 an sp arr.

(** [Array.from(dataArray)] *)
Definition Array_from (arr : Uint8Array) : list Z :=
  map (fun b => Z.of_N (Byte.to_N b)) arr.

(** A [loadedmetadata] listener registered by the upload handler: the file
    and the object URL made for it. *)
Record PendingUpload := mkPending {
  pending_file : File;
  pending_url : string
}.

(** The state of the component: the [useState] cells, the [useRef] cells,
    the timeouts that have not run yet and the [loadedmetadata] listeners
    the uploads have registered.  The cosmetic [isLive]
    flag, [sourceRef], [animationRef] and [fileInputRef] are left out: no
    handler below reads them. *)
Record State := mkState {
  tracks : list Track;
  currentTrack : option Track;
  isPlaying : bool;
  progress : Q;
  volume : Q;
  isDragging : bool;
  waveformData : list Z;
  audioRef : option HTMLAudioElement;
  analyserRef : option AnalyserNode;
  audioContextRef : option AudioContext;
  pendingTimeouts : nat;
  pendingUploads : list PendingUpload
}.

(** The state after the first render, with the [<audio>] element [a]
    attached to [audioRef]. *)
Definition initial (a : HTMLAudioElement) : State :=
  {| tracks := [];
     currentTrack := None;
     isPlaying := false;
     progress := 0;
     volume := 8 # 10;
     isDragging := false;
     waveformData := repeat 0%Z 64;
     audioRef := Some a;
     analyserRef := None;
     audioContextRef := None;
     pendingTimeouts := 0;
     pendingUploads := [] |}.

(** *** State setters *)

Definition setTracks (v : list Track) (s : State) : State :=
  mkState v (currentTrack s) (isPlaying s) (progress s) (volume s) (isDragging s)
          (waveformData s) (audioRef s) (analyserRef s) (audioContextRef s)
          (pendingTimeouts s) (pendingUploads s).

Definition setCurrentTrack (v : option Track) (s : State) : State :=
  mkState (tracks s) v (isPlaying s) (progress s) (volume s) (isDragging s)
          (waveformData s) (audioRef s) (analyserRef s) (audioContextRef s)
          (pendingTimeouts s) (pendingUploads s).

Definition setIsPlaying (v : bool) (s : State) : State :=
  mkState (tracks s) (currentTrack s) v (progress s) (volume s) (isDragging s)
          (waveformData s) (audioRef s) (analyserRef s) (audioContextRef s)
          (pendingTimeouts s) (pendingUploads s).

Definition setProgress (v : Q) (s : State) : State :=
  mkState (tracks s) (currentTrack s) (isPlaying s) v (volume s) (isDragging s)
          (waveformData s) (audioRef s) (analyserRef s) (audioContextRef s)
          (pendingTimeouts s) (pendingUploads s).

Definition setVolume (v : Q) (s : State) : State :=
  mkState (tracks s) (currentTrack s) (isPlaying s) (progress s) v (isDragging s)
          (waveformData s) (audioRef s) (analyserRef s) (audioContextRef s)
          (pendingTimeouts s) (pendingUploads s).

Definition setWaveformData (v : list Z) (s : State) : State :=
  mkState (tracks s) (currentTrack s) (isPlaying s) (progress s) (volume s)
          (isDragging s) v (audioRef s) (analyserRef s) (audioContextRef s)
          (pendingTimeouts s) (pendingUploads s).

Definition setAudio (v : HTMLAudioElement) (s : State) : State :=
  mkState (tracks s) (currentTrack s) (isPlaying s) (progress s) (volume s)
          (isDragging s) (waveformData s) (Some v) (analyserRef s)
          (audioContextRef s) (pendingTimeouts s) (pendingUploads s).

Definition setAudioGraph (ctx : AudioContext) (an : AnalyserNode) (s : State) : State :=
  mkState (tracks s) (currentTrack s) (isPlaying s) (progress s) (volume s)
          (isDragging s) (waveformData s) (audioRef s) (Some an) (Some ctx)
          (pendingTimeouts s) (pendingUploads s).

Definition setPendingTimeouts (v : nat) (s : State) : State :=
  mkState (tracks s) (currentTrack s) (isPlaying s) (progress s) (volume s)
          (isDragging s) (waveformData s) (audioRef s) (analyserRef s)
          (audioContextRef s) v (pendingUploads s).

Definition setPendingUploads (v : list PendingUpload) (s : State) : State :=
  mkState (tracks s) (currentTrack s) (isPlaying s) (progress s) (volume s)
          (isDragging s) (waveformData s) (audioRef s) (analyserRef s)
          (audioContextRef s) (pendingTimeouts s) v.

(** ** The handlers of the component *)

(** [currentTrack?.id === x]: false when there is no current track. *)
Definition current_id_is (x : string) (s : State) : bool :=
  match currentTrack s with
  | Some c => String.eqb (id c) x
  | None => false
  end.

(** [initAudioContext]: builds the graph once, with a 128-sample window. *)
Definition initAudioContext (s : State) : State :=
  match audioContextRef s, audioRef s with
  | None, Some _ => setAudioGraph mkAudioContext (mkAnalyser 128) s
  | _, _ => s
  end.

(** [updateWaveform], the body of one animation frame; [sp] is what the
    analyser holds at that frame. *)
Definition updateWaveform (sp : Spectrum) (s : State) : State :=
  match analyserRef s with
  | Some an =>
      if isPlaying s
      then
        let dataArray := new_Uint8Array (frequencyBinCount an) in
        let dataArray := getByteFrequencyData an sp dataArray in
        setWaveformData (Array_from dataArray) s
      else s
  | None => s
  end.

(** The test of [handleFileUpload] on one file. *)
Definition accepts (f : File) : bool :=
  String.eqb (file_type f) "audio/mpeg"
  || String.eqb (file_type f) "audio/mp3"
  || JsString.endsWith (file_name f) ".mp3".

(** The body of the [forEach] of [handleFileUpload]: an accepted file
    gets an object URL (named by the platform, [createObjectURL]) and a
    [loadedmetadata] listener; any other file is passed over. *)
Definition upload_one (createObjectURL : File -> string) (st : State) (f : File)
  : State :=
  if accepts f
  then setPendingUploads
         (pendingUploads st ++ [mkPending f (createObjectURL f)]) st
  else st.

(** [handleFileUpload]; [files] is [None] for a null file list. *)
Definition handleFileUpload (createObjectURL : File -> string)
    (files : option (list File)) (s : State) : State :=
  match files with
  | None => s
  | Some fs => fold_left (upload_one createObjectURL) fs s
  end.

(** The track the [loadedmetadata] listener builds; [newId] stands for
    [`${Date.now()}-${Math.random()}`] and [d] for [audio.duration]. *)
Definition newTrack (p : PendingUpload) (newId : string) (d : Q) : Track :=
  {| id := newId;
     name := JsString.replace ".mp3" "" (file_name (pending_file p));
     file := pending_file p;
     url := pending_url p;
     duration := d |}.

(** The [loadedmetadata] listener of the [i]-th upload runs.  It was
    registered with [addEventListener] and is never removed, so it stays
    in the list. *)
Definition loadedMetadata (i : nat) (newId : string) (d : Q) (s : State) : State :=
  match nth_error (pendingUploads s) i with
  | Some p => setTracks (tracks s ++ [newTrack p newId d]) s
  | None => s
  end.

(** [togglePlay] *)
Definition togglePlay (s : State) : State :=
  match audioRef s with
  | Some a =>
      if isPlaying s
      then setIsPlaying (negb (isPlaying s)) (setAudio (pause a) s)
      else setIsPlaying (negb (isPlaying s)) (setAudio (play a) (initAudioContext s))
  | None => s
  end.

(** The callback [playTrack] hands to [setTimeout]. *)
Definition playTimeout (s : State) : State :=
  match audioRef s with
  | Some a => setAudio (play a) (initAudioContext s)
  | None => s
  end.

(** One pending timeout expires. *)
Definition fireTimeout (s : State) : State :=
  match pendingTimeouts s with
  | O => s
  | S n => playTimeout (setPendingTimeouts n s)
  end.

(** [playTrack] *)
Definition playTrack (track : Track) (s : State) : State :=
  if current_id_is (id track) s
  then togglePlay s
  else setPendingTimeouts (S (pendingTimeouts s))
         (setIsPlaying true (setCurrentTrack (Some track) s)).

(** [handleTimeUpdate].  The quotient is the code's for a duration that
    is not zero; for a zero duration the code stores NaN, which a rational
    does not represent. *)
Definition handleTimeUpdate (s : State) : State :=
  match audioRef s with
  | Some a =>
      if negb (isDragging s)
      then setProgress (currentTime a / media_duration a * 100) s
      else s
  | None => s
  end.

(** What [handleSeek] reads of the click: [e.clientX] and the bounding
    rectangle of the progress bar. *)
Record MouseEvent := mkMouseEvent {
  clientX : Q;
  rect_left : Q;
  rect_width : Q
}.

Definition seek_percent (e : MouseEvent) : Q :=
  let x := clientX e - rect_left e in
  x / rect_width e.

(** [handleSeek] *)
Definition handleSeek (e : MouseEvent) (s : State) : State :=
  match audioRef s with
  | Some a =>
      let percent := seek_percent e in
      setProgress (percent * 100)
        (setAudio (set_currentTime (percent * media_duration a) a) s)
  | None => s
  end.

(** [handleVolumeChange]; [newVolume] is [parseFloat(e.target.value)]. *)
Definition handleVolumeChange (newVolume : Q) (s : State) : State :=
  let s1 := setVolume newVolume s in
  match audioRef s1 with
  | Some a => setAudio (set_media_volume newVolume a) s1
  | None => s1
  end.

(** [removeTrack] *)
Definition removeTrack (x : string) (s : State) : State :=
  let s1 := setTracks (filter (fun t => negb (String.eqb (id t) x)) (tracks s)) s in
  if current_id_is x s
  then setIsPlaying false (setCurrentTrack None s1)
  else s1.

(** The [onEnded] handler of the [<audio>] element. *)
Definition onEnded (s : State) : State := setIsPlaying false s.

(** ** The visualizer: the bars drawn from [waveformData] *)

(** What one [motion.div] of the bar graph receives: the [style] entries
    and the [animate] target, heights in percent of the panel. *)
Record Bar := mkBar {
  style_height : Q;
  style_opacity : Q;
  style_glow : bool;
  animate_height : Q
}.

(** [Math.max(4, (value / 255) * 100)] *)
Definition bar_level (value : Z) : Q :=
  Qmax 4 (inject_Z value / 255 * 100).

Definition renderBar (playing : bool) (value : Z) : Bar :=
  {| style_height := bar_level value;
     style_opacity := (7 # 10) + (inject_Z value / 255) * (3 # 10);
     style_glow := (value >? 128)%Z;
     animate_height := if playing then bar_level value else 4 |}.

(** [waveformData.map((value, i) => <motion.div ... />)] *)
Definition renderBars (snapshot : list Z) (playing : bool) : list Bar :=
  map (renderBar playing) snapshot.

(** The height a bar is driven to: the [animate] target, which the
    animation library applies over the [style] entry of the same name. *)
Definition rendered_height (b : Bar) : Q := animate_height b.

(** ** Events and runs *)

(** Everything that can happen to the mounted component: the user's
    actions and the platform's callbacks. *)
Inductive Event :=
| EvPlayTrack (track : Track)
| EvTogglePlay
| EvRemoveTrack (x : string)
| EvSeek (e : MouseEvent)
| EvVolumeChange (newVolume : Q)
| EvEnded
| EvTimeUpdate
| EvTimeout
| EvFrame (sp : Spectrum)
| EvUpload (createObjectURL : File -> string) (files : option (list File))
| EvLoadedMetadata (i : nat) (newId : string) (d : Q).

Definition handle (ev : Event) (s : State) : State :=
  match ev with
  | EvPlayTrack track => playTrack track s
  | EvTogglePlay => togglePlay s
  | EvRemoveTrack x => removeTrack x s
  | EvSeek e => handleSeek e s
  | EvVolumeChange v => handleVolumeChange v s
  | EvEnded => onEnded s
  | EvTimeUpdate => handleTimeUpdate s
  | EvTimeout => fireTimeout s
  | EvFrame sp => updateWaveform sp s
  | EvUpload mk files => handleFileUpload mk files s
  | EvLoadedMetadata i newId d => loadedMetadata i newId d s
  end.

Definition run (evs : list Event) (s : State) : State :=
  fold_left (fun st ev => handle ev st) evs s.

(** States the component can be in, with every event allowed at every
    state. *)
Inductive reachable : State -> Prop :=
| reach_initial : forall a, reachable (initial a)
| reach_handle : forall s ev, reachable s -> reachable (handle ev s).

(** ** The specification's words, for comparison *)

(** Bar height of the specification: [max(4%, (value/255) x 100%)] while
    playing, the minimum height otherwise. *)
Definition spec_min_height : Q := 4.

Definition spec_bar_height (playing : bool) (value : Z) : Q :=
  if playing
  then Qmax spec_min_height (inject_Z value / 255 * 100)
  else spec_min_height.

Definition in_byte_range (v : Z) : Prop := (0 <= v <= 255)%Z.

(** ** Sample data *)

(** An [<audio>] element with a three-minute track loaded, paused at the
    start, and two tracks, used by the examples below. *)
Definition audio180 : HTMLAudioElement := mkAudio 0 180 1 true.

Definition track1 : Track :=
  mkTrack "t1" "track1" (mkFile "track1.mp3" "audio/mpeg") "blob:1" 180.

Definition track2 : Track :=
  mkTrack "t2" "track2" (mkFile "track2.mp3" "audio/mpeg") "blob:2" 240.

(** A click in the middle of a progress bar 180 pixels wide. *)
Definition click_middle : MouseEvent := mkMouseEvent 90 0 180.

(** A file typed [audio/mp3] whose name does not end in [.mp3]. *)
Definition mp3_typed_file : File := mkFile "set.wav" "audio/mp3".

(** [track1] selected from the initial state. *)
Definition playing_track1 : State := run [EvPlayTrack track1] (initial audio180).

(** A run that starts playback of [track1] and samples one frame in which
    every bin is at full scale. *)
Definition playing_one_frame : State :=
  run [EvPlayTrack track1; EvTimeout; EvFrame (fun _ => xff)] (initial audio180).

(** Two tracks in the registry, the first one playing. *)
Definition two_tracks_playing : State :=
  run [EvUpload
         (fun f => if String.eqb (file_name f) "track1.mp3" then "blob:1" else "blob:2")
         (Some [file track1; file track2]);
       EvLoadedMetadata 0 "t1" 180; EvLoadedMetadata 1 "t2" 240;
       EvPlayTrack track1]
      (initial audio180).

(** [track1] is uploaded, played and paused, then removed; the last event
    is a click on the play/pause button of the now-playing panel, which
    [AnimatePresence] keeps on the page while the panel plays its [exit]
    animation.  The [togglePlay] of that button belongs to the render
    before the removal, where [isPlaying] was false as it still is. *)
Definition pause_remove_click_exiting_button : list Event :=
  [EvUpload (fun _ => "blob:1") (Some [file track1]);
   EvLoadedMetadata 0 "t1" 180;
   EvPlayTrack track1; EvTimeout;
   EvTogglePlay;
   EvRemoveTrack "t1";
   EvTogglePlay].

(** ** Invariants *)

(** The invariant behind the snapshot: its shape, and the window size of
    the only analyser the component ever builds. *)
Definition snapshot_ok (s : State) : Prop :=
  List.length (waveformData s) = 64%nat /\
  Forall in_byte_range (waveformData s) /\
  (forall an, analyserRef s = Some an -> fftSize an = 128%nat).

(** The playing flag is set only while there is a current track. *)
Definition playing_has_track (s : State) : Prop :=
  isPlaying s = true -> currentTrack s <> None.

(** The filter of [removeTrack]: [t => t.id !== id]. *)
Definition keeps (x : string) (t : Track) : bool := negb (String.eqb (id t) x).

(** ** Time labels: [formatTime] *)

Module JsFormat.

(** Truncation toward zero, as in the remainder of two numbers. *)
Definition Qtrunc (q : Q) : Z := Z.quot (Qnum q) (Zpos (Qden q)).

(** [x % y] on numbers: the remainder has the sign of [x]. *)
Definition js_rem (x y : Q) : Q := x - y * inject_Z (Qtrunc (x / y)).

(** [n.toString()] and [`${n}`] for an integer-valued number. *)
Definition toString (z : Z) : string := NilZero.string_of_int (Z.to_int z).

(** [count] characters taken from [padString] over and over; [cur] is
    what is left of the copy in progress. *)
Fixpoint filler (count : nat) (padString cur : string) : string :=
  match count with
  | O => EmptyString
  | S k =>
      match cur with
      | String c rest => String c (filler k padString rest)
      | EmptyString =>
          match padString with
          | String c rest => String c (filler k padString rest)
          | EmptyString => EmptyString
          end
      end
  end.

(** [s.padStart(targetLength, padString)] *)
Definition padStart (targetLength : nat) (padString s : string) : string :=
  if (targetLength <=? String.length s)%nat
  then s
  else (filler (targetLength - String.length s) padString padString ++ s)%string.

End JsFormat.

(** [formatTime].  The integers are exact here; the code's doubles agree
    with them for inputs below 2^53. *)
Definition formatTime (seconds : Q) : string :=
  let mins := Qfloor (seconds / 60) in
  let secs := Qfloor (JsFormat.js_rem seconds 60) in
  (JsFormat.toString mins ++ ":"
     ++ JsFormat.padStart 2 "0" (JsFormat.toString secs))%string.

(** ** What the component shows of its state *)

(** The square at the left of a row of the track list: the animated
    equalizer for the playing track, the position in the list otherwise. *)
Inductive Badge :=
| Equalizer
| Position (n : nat).

(** One row of the track list. *)
Record Row := mkRow {
  row_key : string;
  row_highlighted : bool;
  row_badge : Badge;
  row_name : string;
  row_time : string
}.

Definition trackRow (s : State) (index : nat) (track : Track) : Row :=
  {| row_key := id track;
     row_highlighted := current_id_is (id track) s;
     row_badge := if current_id_is (id track) s && isPlaying s
                  then Equalizer
                  else Position (index + 1);
     row_name := name track;
     row_time := formatTime (duration track) |}.

(** [xs.map((x, index) => f(index, x))], counting from [i]. *)
Fixpoint mapi_from {A B : Type} (f : nat -> A -> B) (i : nat) (xs : list A) : list B :=
  match xs with
  | [] => []
  | x :: rest => f i x :: mapi_from f (S i) rest
  end.

(** [tracks.map((track, index) => ...)] *)
Definition trackRows (s : State) : list Row :=
  mapi_from (trackRow s) 0 (tracks s).

(** [tracks.length === 0 && ...]: the empty-playlist notice. *)
Definition emptyNoticeShown (s : State) : bool :=
  (List.length (tracks s) =? 0)%nat.

Definition is_volume_event (ev : Event) : bool :=
  match ev with
  | EvVolumeChange _ => true
  | _ => false
  end.

Definition is_frame_event (ev : Event) : bool :=
  match ev with
  | EvFrame _ => true
  | _ => false
  end.

(** The value a byte of the analyser has in the snapshot. *)
Definition byte_value (b : byte) : Z := Z.of_N (Byte.to_N b).

(** The [<audio>] element is attached and the drag guard is open. *)
Definition mounted_ok (s : State) : Prop :=
  audioRef s <> None /\ isDragging s = false.

(** The context and the analyser exist together, the analyser with 64
    bins. *)
Definition graph_paired (s : State) : Prop :=
  (audioContextRef s = None <-> analyserRef s = None) /\
  (forall an, analyserRef s = Some an -> frequencyBinCount an = 64%nat).

(** The current track is a track of the registry. *)
Definition current_listed (s : State) : Prop :=
  forall c, currentTrack s = Some c -> In c (tracks s).

(** No full stop in [s]. *)
Fixpoint dotless (s : string) : Prop :=
  match s with
  | EmptyString => True
  | String c rest => c <> "."%char /\ dotless rest
  end.

(** * Properties *)

(** ** What the upload handler leaves alone *)

Section UploadFrame.

Variable createObjectURL : File -> string.

Lemma upload_fold_frame (fs : list File) : forall s,
  let s' := fold_left (upload_one createObjectURL) fs s in
  tracks s' = tracks s /\ currentTrack s' = currentTrack s /\
  isPlaying s' = isPlaying s /\ progress s' = progress s /\
  volume s' = volume s /\ waveformData s' = waveformData s /\
  audioRef s' = audioRef s /\ analyserRef s' = analyserRef s /\
  pendingUploads s' =
    pendingUploads s ++ map (fun f => mkPending f (createObjectURL f)) (filter accepts fs).
Proof.
  induction fs as [|f fs IH]; intros s; simpl.
  - rewrite app_nil_r. repeat split.
  - specialize (IH (upload_one createObjectURL s f)). simpl in IH.
    destruct IH as (H1 & H2 & H3 & H4 & H5 & H6 & H7 & H8 & H9).
    rewrite H1, H2, H3, H4, H5, H6, H7, H8, H9.
    unfold upload_one. destruct (accepts f); simpl.
    + rewrite <- app_assoc. repeat split.
    + repeat split.
Qed.

Lemma handleFileUpload_frame (files : option (list File)) (s : State) :
  let s' := handleFileUpload createObjectURL files s in
  tracks s' = tracks s /\ currentTrack s' = currentTrack s /\
  isPlaying s' = isPlaying s /\ progress s' = progress s /\
  volume s' = volume s /\ waveformData s' = waveformData s /\
  audioRef s' = audioRef s /\ analyserRef s' = analyserRef s.
Proof.
  destruct files as [fs|]; simpl.
  - pose proof (upload_fold_frame fs s) as H. simpl in H.
    unfold handleFileUpload. tauto.
  - repeat split.
Qed.

Lemma handleFileUpload_pending (fs : list File) (s : State) :
  pendingUploads (handleFileUpload createObjectURL (Some fs) s) =
  pendingUploads s ++ map (fun f => mkPending f (createObjectURL f)) (filter accepts fs).
Proof.
  pose proof (upload_fold_frame fs s) as H. simpl in H. apply H.
Qed.

End UploadFrame.

(** ** The spectrum snapshot *)

Lemma fill_from_length (an : AnalyserNode) (sp : Spectrum) (arr : Uint8Array) :
  forall i, List.length (fill_from i an sp arr) = List.length arr.
Proof.
  induction arr as [|b arr IH]; intros i; simpl; [reflexivity|].
  now rewrite IH.
Qed.

Lemma Array_from_length (arr : Uint8Array) : List.length (Array_from arr) = List.length arr.
Proof. unfold Array_from. apply length_map. Qed.

Lemma Array_from_range (arr : Uint8Array) : Forall in_byte_range (Array_from arr).
Proof.
  unfold Array_from. apply Forall_map, Forall_forall. intros b _.
  unfold in_byte_range. pose proof (Byte.to_N_bounded b). lia.
Qed.

Lemma snapshot_ok_initial (a : HTMLAudioElement) : snapshot_ok (initial a).
Proof.
  unfold snapshot_ok; simpl. split; [reflexivity|]. split.
  - repeat constructor; unfold in_byte_range; lia.
  - discriminate.
Qed.

Lemma snapshot_ok_initAudioContext (s : State) :
  snapshot_ok s -> snapshot_ok (initAudioContext s).
Proof.
  unfold snapshot_ok, initAudioContext. intros (Hl & Hr & Ha).
  destruct (audioContextRef s), (audioRef s); simpl; auto.
  repeat split; auto. intros an [= <-]. reflexivity.
Qed.

Lemma snapshot_ok_same (s s' : State) :
  waveformData s' = waveformData s -> analyserRef s' = analyserRef s ->
  snapshot_ok s -> snapshot_ok s'.
Proof. unfold snapshot_ok. intros -> ->. auto. Qed.

Lemma snapshot_ok_updateWaveform (sp : Spectrum) (s : State) :
  snapshot_ok s -> snapshot_ok (updateWaveform sp s).
Proof.
  intros H. unfold updateWaveform.
  destruct (analyserRef s) as [an|] eqn:Han; [|exact H].
  destruct (isPlaying s); [|exact H].
  destruct H as (_ & _ & Hfft). pose proof (Hfft an Han) as H128.
  unfold snapshot_ok; simpl. split; [|split].
  - rewrite Array_from_length. unfold getByteFrequencyData.
    rewrite fill_from_length. unfold new_Uint8Array. rewrite repeat_length.
    unfold frequencyBinCount. rewrite H128. reflexivity.
  - apply Array_from_range.
  - intros an0 E. apply Hfft. exact E.
Qed.

Lemma snapshot_ok_handle (ev : Event) (s : State) :
  snapshot_ok s -> snapshot_ok (handle ev s).
Proof.
  intros H. destruct ev; simpl.
  - unfold playTrack. destruct (current_id_is _ s).
    + unfold togglePlay. destruct (audioRef s); [|exact H].
      destruct (isPlaying s).
      * eapply snapshot_ok_same; [| |exact H]; reflexivity.
      * eapply snapshot_ok_same; [| |exact (snapshot_ok_initAudioContext s H)]; reflexivity.
    + eapply snapshot_ok_same; [| |exact H]; reflexivity.
  - unfold togglePlay. destruct (audioRef s); [|exact H].
    destruct (isPlaying s).
    + eapply snapshot_ok_same; [| |exact H]; reflexivity.
    + eapply snapshot_ok_same; [| |exact (snapshot_ok_initAudioContext s H)]; reflexivity.
  - unfold removeTrack. destruct (current_id_is x s);
      (eapply snapshot_ok_same; [| |exact H]; reflexivity).
  - unfold handleSeek. destruct (audioRef s); [|exact H].
    eapply snapshot_ok_same; [| |exact H]; reflexivity.
  - unfold handleVolumeChange; simpl. destruct (audioRef s);
      (eapply snapshot_ok_same; [| |exact H]; reflexivity).
  - eapply snapshot_ok_same; [| |exact H]; reflexivity.
  - unfold handleTimeUpdate. destruct (audioRef s); [|exact H].
    destruct (negb (isDragging s)); [|exact H].
    eapply snapshot_ok_same; [| |exact H]; reflexivity.
  - unfold fireTimeout. destruct (pendingTimeouts s) as [|n]; [exact H|].
    unfold playTimeout; simpl. destruct (audioRef s) eqn:Ha.
    + assert (H' : snapshot_ok (setPendingTimeouts n s))
        by (eapply snapshot_ok_same; [| |exact H]; reflexivity).
      eapply snapshot_ok_same;
        [| |exact (snapshot_ok_initAudioContext _ H')]; reflexivity.
    + eapply snapshot_ok_same; [| |exact H]; reflexivity.
  - apply snapshot_ok_updateWaveform, H.
  - pose proof (handleFileUpload_frame createObjectURL files s) as F. simpl in F.
    eapply snapshot_ok_same; [| |exact H]; apply F.
  - unfold loadedMetadata. destruct (nth_error _ _); [|exact H].
    eapply snapshot_ok_same; [| |exact H]; reflexivity.
Qed.

(** C1 (as amended): in every state the component can reach, playing or
    not, the spectrum snapshot has 64 entries, one per analysis bin of the
    128-sample window, and every entry lies in [0,255]; the snapshot of the
    initial state has this length too. *)
Theorem C1_snapshot_has_64_bytes (s : State) :
  reachable s ->
  List.length (waveformData s) = 64%nat /\
  Forall in_byte_range (waveformData s) /\
  (forall a, List.length (waveformData (initial a)) = 64%nat).
Proof.
  intros Hr.
  assert (Hok : snapshot_ok s).
  { induction Hr as [a|s ev _ IH].
    - apply snapshot_ok_initial.
    - apply snapshot_ok_handle, IH. }
  destruct Hok as (Hl & Hb & _). repeat split; auto.
Qed.

Lemma reachable_run (evs : list Event) : forall s,
  reachable s -> reachable (run evs s).
Proof.
  induction evs as [|ev evs IH]; intros s H; simpl; [exact H|].
  apply IH. now apply reach_handle.
Qed.

Lemma C1_snapshot_witness :
  List.length (waveformData playing_one_frame) = 64%nat /\
  Forall in_byte_range (waveformData playing_one_frame) /\
  (forall a, List.length (waveformData (initial a)) = 64%nat).
Proof.
  apply (C1_snapshot_has_64_bytes playing_one_frame).
  apply reachable_run, reach_initial.
Defined.

(** The snapshot never has 32 entries: not before playback, and not while
    playing. *)
Lemma C1_snapshot_length_is_not_32 :
  List.length (waveformData (initial audio180)) <> 32%nat /\
  isPlaying playing_one_frame = true /\
  List.length (waveformData playing_one_frame) <> 32%nat.
Proof.
  repeat split; vm_compute; discriminate.
Qed.

(** ** Selecting a track *)

Lemma current_id_is_current (s : State) (t : Track) :
  currentTrack s = Some t -> current_id_is (id t) s = true.
Proof. unfold current_id_is. intros ->. apply String.eqb_refl. Qed.

Lemma togglePlay_currentTrack (s : State) :
  currentTrack (togglePlay s) = currentTrack s.
Proof.
  unfold togglePlay, initAudioContext.
  destruct (audioRef s), (isPlaying s), (audioContextRef s); reflexivity.
Qed.

Lemma initAudioContext_audioRef (s : State) :
  audioRef (initAudioContext s) = audioRef s.
Proof.
  unfold initAudioContext. destruct (audioContextRef s); [reflexivity|].
  destruct (audioRef s) eqn:E; simpl; congruence.
Qed.

(** C2: selecting the track that is already current is exactly
    [togglePlay], and the current track stays the same; selecting a track
    that is not current makes it the current track, sets [isPlaying], and
    schedules the callback that, once it runs on the mounted [<audio>]
    element, calls [play()] on it. *)
Theorem C2_select_track (s : State) (t : Track) :
  (currentTrack s = Some t ->
     playTrack t s = togglePlay s /\ currentTrack (playTrack t s) = Some t) /\
  (current_id_is (id t) s = false ->
     let s' := playTrack t s in
     currentTrack s' = Some t /\ isPlaying s' = true /\
     pendingTimeouts s' = S (pendingTimeouts s) /\
     forall a, audioRef s = Some a ->
       audioRef (fireTimeout s') = Some (play a) /\
       currentTrack (fireTimeout s') = Some t /\
       isPlaying (fireTimeout s') = true).
Proof.
  split.
  - intros Hc. unfold playTrack. rewrite (current_id_is_current s t Hc).
    split; [reflexivity|]. now rewrite togglePlay_currentTrack.
  - intros Hn. unfold playTrack. rewrite Hn. simpl.
    repeat split.
    all: unfold fireTimeout, playTimeout, initAudioContext; simpl; rewrite H;
      destruct (audioContextRef s); reflexivity.
Qed.

(** With [track1] playing, selecting [track1] toggles and selecting
    [track2] switches. *)
Lemma C2_select_track_witness :
  (playTrack track1 playing_track1 = togglePlay playing_track1 /\
   currentTrack (playTrack track1 playing_track1) = Some track1) /\
  (currentTrack (playTrack track2 playing_track1) = Some track2 /\
   isPlaying (playTrack track2 playing_track1) = true /\
   audioRef (fireTimeout (playTrack track2 playing_track1)) = Some (play audio180)).
Proof.
  split.
  - apply (proj1 (C2_select_track playing_track1 track1)). reflexivity.
  - destruct (proj2 (C2_select_track playing_track1 track2) eq_refl)
      as (Hc & Hp & _ & Hplay).
    split; [exact Hc|]. split; [exact Hp|].
    exact (proj1 (Hplay audio180 eq_refl)).
Defined.

(** ** Seeking *)

(** A click inside the progress bar gives a fraction between 0 and 1. *)
Lemma seek_percent_in_unit (e : MouseEvent) :
  0 < rect_width e ->
  rect_left e <= clientX e -> clientX e <= rect_left e + rect_width e ->
  0 <= seek_percent e /\ seek_percent e <= 1.
Proof.
  intros Hw Hl Hr. unfold seek_percent. split.
  - apply Qle_shift_div_l; [exact Hw|]. lra.
  - apply Qle_shift_div_r; [exact Hw|]. lra.
Qed.

(** C3: with a current track of duration [D] loaded in the element, a
    click at fraction [f] of the progress bar sets the position to [f * D]
    and the progress to [f * 100], a value between 0 and 100; the handler
    neither reads nor writes [isPlaying], so the result is the same from the
    playing and from the paused state. *)
Theorem C3_seek_sets_position_and_progress
    (f : Q) (e : MouseEvent) (s : State) (a : HTMLAudioElement) (t : Track) :
  0 <= f -> f <= 1 ->
  0 < rect_width e -> seek_percent e == f ->
  currentTrack s = Some t ->
  audioRef s = Some a -> media_duration a == duration t ->
  let D := duration t in
  let s' := handleSeek e s in
  (exists a', audioRef s' = Some a' /\ currentTime a' == f * D) /\
  progress s' == f * 100 /\
  (0 <= progress s' /\ progress s' <= 100) /\
  isPlaying s' = isPlaying s /\
  currentTrack s' = Some t /\
  (forall playing, handleSeek e (setIsPlaying playing s) = setIsPlaying playing s').
Proof.
  intros H0 H1 _ Hf Ht Ha HD. unfold handleSeek. simpl. rewrite Ha. simpl.
  split; [|split; [|split; [|split; [|split]]]].
  - eexists. split; [reflexivity|]. simpl. now rewrite Hf, HD.
  - now rewrite Hf.
  - rewrite Hf. split; lra.
  - reflexivity.
  - exact Ht.
  - intros playing. reflexivity.
Qed.

(** The scenario of the specification: a click in the middle of the bar
    on a 180-second track gives position 90 and progress 50. *)
Lemma C3_seek_witness :
  (exists a', audioRef (handleSeek click_middle playing_track1) = Some a' /\
              currentTime a' == (1 # 2) * 180) /\
  progress (handleSeek click_middle playing_track1) == (1 # 2) * 100 /\
  (0 <= progress (handleSeek click_middle playing_track1) /\
   progress (handleSeek click_middle playing_track1) <= 100) /\
  isPlaying (handleSeek click_middle playing_track1) = isPlaying playing_track1 /\
  currentTrack (handleSeek click_middle playing_track1) = Some track1 /\
  (forall playing,
     handleSeek click_middle (setIsPlaying playing playing_track1) =
     setIsPlaying playing (handleSeek click_middle playing_track1)).
Proof.
  apply (C3_seek_sets_position_and_progress (1 # 2) click_middle
           playing_track1 audio180 track1).
  - discriminate.
  - discriminate.
  - reflexivity.
  - reflexivity.
  - reflexivity.
  - reflexivity.
  - reflexivity.
Defined.

(** ** The playing flag and the current track *)

Lemma playing_has_track_same (s s' : State) :
  isPlaying s' = isPlaying s -> currentTrack s' = currentTrack s ->
  playing_has_track s -> playing_has_track s'.
Proof. unfold playing_has_track. intros -> ->. auto. Qed.

Lemma togglePlay_keeps_track (s : State) :
  currentTrack s <> None -> playing_has_track (togglePlay s).
Proof.
  intros H _. now rewrite togglePlay_currentTrack.
Qed.

Lemma fireTimeout_flags (s : State) :
  isPlaying (fireTimeout s) = isPlaying s /\
  currentTrack (fireTimeout s) = currentTrack s.
Proof.
  unfold fireTimeout, playTimeout, initAudioContext.
  destruct (pendingTimeouts s); simpl; [auto|].
  destruct (audioRef s); simpl; [|auto].
  destruct (audioContextRef s); simpl; auto.
Qed.

Lemma updateWaveform_flags (sp : Spectrum) (s : State) :
  isPlaying (updateWaveform sp s) = isPlaying s /\
  currentTrack (updateWaveform sp s) = currentTrack s.
Proof.
  unfold updateWaveform. destruct (analyserRef s); [|auto].
  destruct (isPlaying s) eqn:E; simpl; auto.
Qed.

(** Every handler keeps the playing flag tied to a current track, except
    [togglePlay] run while there is none. *)
Lemma playing_has_track_handle (ev : Event) (s : State) :
  (ev = EvTogglePlay -> currentTrack s <> None) ->
  playing_has_track s -> playing_has_track (handle ev s).
Proof.
  intros Hgate H. destruct ev; simpl.
  - unfold playTrack. destruct (current_id_is (id track) s) eqn:Hc.
    + apply togglePlay_keeps_track. unfold current_id_is in Hc.
      destruct (currentTrack s); [discriminate | discriminate].
    + intros _. simpl. discriminate.
  - apply togglePlay_keeps_track, Hgate. reflexivity.
  - unfold removeTrack. destruct (current_id_is x s).
    + intros Hp. simpl in Hp. discriminate.
    + eapply playing_has_track_same; [| |exact H]; reflexivity.
  - unfold handleSeek. destruct (audioRef s); [|exact H].
    eapply playing_has_track_same; [| |exact H]; reflexivity.
  - unfold handleVolumeChange; simpl. destruct (audioRef s);
      (eapply playing_has_track_same; [| |exact H]; reflexivity).
  - intros Hp. simpl in Hp. discriminate.
  - unfold handleTimeUpdate. destruct (audioRef s); [|exact H].
    destruct (negb (isDragging s)); [|exact H].
    eapply playing_has_track_same; [| |exact H]; reflexivity.
  - eapply playing_has_track_same; [| |exact H]; apply fireTimeout_flags.
  - eapply playing_has_track_same; [| |exact H]; apply updateWaveform_flags.
  - pose proof (handleFileUpload_frame createObjectURL files s) as F. simpl in F.
    eapply playing_has_track_same; [| |exact H]; apply F.
  - unfold loadedMetadata. destruct (nth_error _ _); [|exact H].
    eapply playing_has_track_same; [| |exact H]; reflexivity.
Qed.

(** C4 (the code breaks it): [isPlaying] should imply a current track,
    and the component aims at it (the play/pause button is rendered under
    [currentTrack], [removeTrack] clears the flag with the track), but the
    button outlives the track while its panel exits.  Upload a track, play
    it, pause it and remove it: the player is idle, with no track and not
    playing.  One click on the button of the exiting panel, and [isPlaying]
    is true with no current track. *)
Theorem C4_exiting_play_button_plays_without_track :
  let before := run (removelast pause_remove_click_exiting_button)
                  (initial audio180) in
  let after := run pause_remove_click_exiting_button (initial audio180) in
  (tracks before = [] /\ currentTrack before = None /\ isPlaying before = false) /\
  after = handle EvTogglePlay before /\
  (isPlaying after = true /\ currentTrack after = None).
Proof.
  vm_compute. repeat split.
Qed.

(** ** Uploads *)

Lemma accepts_iff (f : File) :
  accepts f = true <->
  file_type f = "audio/mpeg" \/ file_type f = "audio/mp3" \/
  JsString.endsWith (file_name f) ".mp3" = true.
Proof.
  unfold accepts. rewrite !orb_true_iff, !String.eqb_eq. tauto.
Qed.

(** A file typed [audio/mp3] is admitted whatever its name: one whose
    type is not [audio/mpeg] and whose name does not end in [.mp3] enters
    the registry once its metadata has loaded. *)
Lemma C5_audio_mp3_type_is_admitted :
  let s := run [EvUpload (fun _ => "blob:9") (Some [mp3_typed_file]);
                EvLoadedMetadata 0 "t9" 60] (initial audio180) in
  file_type mp3_typed_file <> "audio/mpeg" /\
  JsString.endsWith (file_name mp3_typed_file) ".mp3" = false /\
  accepts mp3_typed_file = true /\
  tracks s = [mkTrack "t9" "set.wav" mp3_typed_file "blob:9" 60].
Proof.
  repeat split. discriminate.
Qed.

(** C5 (as amended): the upload handler admits a file exactly when its
    declared type is [audio/mpeg] or [audio/mp3] or its name ends in
    [.mp3]: it registers a metadata listener for each such file and for no
    other, and never touches the registry itself; a file that fails the
    test (a [.wav] file typed [audio/wav], say) leaves the whole state as it
    was; and when the listener of an admitted file runs, the registry gains
    one track, for that file, at its end. *)
Theorem C5_upload_filter (createObjectURL : File -> string)
    (fs : list File) (s : State) :
  (forall f, accepts f = true <->
     file_type f = "audio/mpeg" \/ file_type f = "audio/mp3" \/
     JsString.endsWith (file_name f) ".mp3" = true) /\
  tracks (handleFileUpload createObjectURL (Some fs) s) = tracks s /\
  pendingUploads (handleFileUpload createObjectURL (Some fs) s) =
    pendingUploads s ++
    map (fun f => mkPending f (createObjectURL f)) (filter accepts fs) /\
  (forall f, accepts f = false ->
     handleFileUpload createObjectURL (Some [f]) s = s) /\
  handleFileUpload createObjectURL
    (Some [mkFile "drums.wav" "audio/wav"]) s = s /\
  (forall i p newId d, nth_error (pendingUploads s) i = Some p ->
     tracks (loadedMetadata i newId d s) =
     tracks s ++ [newTrack p newId d] /\
     file (newTrack p newId d) = pending_file p).
Proof.
  split; [exact accepts_iff|].
  split; [apply (handleFileUpload_frame createObjectURL (Some fs) s)|].
  split; [apply handleFileUpload_pending|].
  split; [|split].
  - intros f Hf. unfold handleFileUpload, upload_one. simpl. now rewrite Hf.
  - reflexivity.
  - intros i p newId d Hp. unfold loadedMetadata. rewrite Hp. split; reflexivity.
Qed.

Lemma C5_upload_filter_witness :
  let mk := fun f : File => ("blob:" ++ file_name f)%string in
  let wav := mkFile "drums.wav" "audio/wav" in
  let mp3 := mkFile "track1.mp3" "" in
  let s := handleFileUpload mk (Some [wav; mp3]) (initial audio180) in
  handleFileUpload mk (Some [wav]) (initial audio180) = initial audio180 /\
  tracks (loadedMetadata 0 "t1" 180 s) =
    tracks s ++ [newTrack (mkPending mp3 "blob:track1.mp3") "t1" 180].
Proof.
  intros mk wav mp3 s. split.
  - apply (proj1 (proj2 (proj2 (proj2
             (C5_upload_filter mk [] (initial audio180))))) wav).
    reflexivity.
  - apply (proj2 (proj2 (proj2 (proj2 (proj2 (C5_upload_filter mk [] s)))))
             0%nat (mkPending mp3 "blob:track1.mp3") "t1" 180).
    reflexivity.
Defined.

(** The first scenario of the specification, from upload to removal. *)
Example scenario_track1 :
  let s1 := run [EvUpload (fun _ => "blob:1")
                   (Some [mkFile "track1.mp3" "audio/mpeg"]);
                 EvLoadedMetadata 0 "t1" 180] (initial audio180) in
  let s2 := run [EvPlayTrack track1; EvTimeout] s1 in
  let s3 := run [EvSeek click_middle] s2 in
  let s4 := run [EvTogglePlay] s3 in
  let s5 := run [EvRemoveTrack "t1"] s4 in
  tracks s1 = [track1] /\
  (currentTrack s2 = Some track1 /\ isPlaying s2 = true) /\
  (progress s3 == 50 /\ option_map currentTime (audioRef s3) = Some (16200 # 180)) /\
  (currentTrack s4 = Some track1 /\ isPlaying s4 = false) /\
  (tracks s5 = [] /\ currentTrack s5 = None /\ isPlaying s5 = false).
Proof.
  vm_compute. repeat split; intros; discriminate.
Qed.

(** ** Play and pause *)

Lemma togglePlay_isPlaying (s : State) :
  audioRef s <> None -> isPlaying (togglePlay s) = negb (isPlaying s).
Proof.
  intros H. unfold togglePlay. destruct (audioRef s); [|contradiction].
  destruct (isPlaying s); reflexivity.
Qed.

Lemma togglePlay_audioRef (s : State) :
  audioRef s <> None -> audioRef (togglePlay s) <> None.
Proof.
  intros H. unfold togglePlay. destruct (audioRef s); [|contradiction].
  destruct (isPlaying s); simpl; discriminate.
Qed.

(** C6: with the [<audio>] element in place, one [togglePlay] flips
    [isPlaying] and a second one flips it back. *)
Theorem C6_togglePlay_twice (s : State) :
  audioRef s <> None ->
  isPlaying (togglePlay s) = negb (isPlaying s) /\
  isPlaying (togglePlay (togglePlay s)) = isPlaying s.
Proof.
  intros H. split.
  - now apply togglePlay_isPlaying.
  - rewrite togglePlay_isPlaying by now apply togglePlay_audioRef.
    rewrite togglePlay_isPlaying by exact H.
    apply negb_involutive.
Qed.

Lemma C6_togglePlay_twice_witness :
  isPlaying (togglePlay playing_track1) = negb (isPlaying playing_track1) /\
  isPlaying (togglePlay (togglePlay playing_track1)) = isPlaying playing_track1.
Proof.
  apply (C6_togglePlay_twice playing_track1). discriminate.
Defined.

(** ** Removing tracks *)

Lemma removeTrack_tracks (x : string) (s : State) :
  tracks (removeTrack x s) = filter (keeps x) (tracks s).
Proof.
  unfold removeTrack. destruct (current_id_is x s); reflexivity.
Qed.

Lemma keeps_true (x : string) (t : Track) : keeps x t = true <-> id t <> x.
Proof.
  unfold keeps. rewrite negb_true_iff. split.
  - intros H E. apply String.eqb_eq in E. congruence.
  - intros H. destruct (String.eqb (id t) x) eqn:E; [|reflexivity].
    apply String.eqb_eq in E. contradiction.
Qed.

Lemma removeTrack_In (x : string) (s : State) (u : Track) :
  In u (tracks (removeTrack x s)) <-> In u (tracks s) /\ id u <> x.
Proof.
  rewrite removeTrack_tracks, filter_In, keeps_true. tauto.
Qed.

(** C7: removing the current track takes it (and any track with its id)
    out of the registry, keeps the other tracks in order, and leaves the
    controller idle: no current track, not playing. *)
Theorem C7_remove_current_track (s : State) (t : Track) :
  currentTrack s = Some t ->
  let s' := removeTrack (id t) s in
  ~ In t (tracks s') /\
  tracks s' = filter (keeps (id t)) (tracks s) /\
  currentTrack s' = None /\
  isPlaying s' = false.
Proof.
  intros Hc s'. subst s'. split; [|split].
  - rewrite removeTrack_In. intros [_ H]. now apply H.
  - apply removeTrack_tracks.
  - unfold removeTrack. rewrite (current_id_is_current s t Hc). split; reflexivity.
Qed.

Lemma C7_remove_current_witness :
  let s' := removeTrack "t1" two_tracks_playing in
  ~ In track1 (tracks s') /\
  tracks s' = filter (keeps "t1") (tracks two_tracks_playing) /\
  currentTrack s' = None /\
  isPlaying s' = false.
Proof.
  apply (C7_remove_current_track two_tracks_playing track1). reflexivity.
Defined.

(** C8: when the media ends, [isPlaying] becomes false and nothing else
    changes: the current track stays the current track, the registry and
    the element are untouched, so no other track is started. *)
Theorem C8_natural_end (s : State) :
  isPlaying (onEnded s) = false /\
  currentTrack (onEnded s) = currentTrack s /\
  tracks (onEnded s) = tracks s /\
  progress (onEnded s) = progress s /\
  audioRef (onEnded s) = audioRef s /\
  pendingTimeouts (onEnded s) = pendingTimeouts s /\
  (forall t, currentTrack s = Some t ->
     currentTrack (handle EvEnded s) = Some t /\
     isPlaying (handle EvEnded s) = false).
Proof.
  repeat split. simpl. exact H.
Qed.

Lemma C8_natural_end_witness :
  currentTrack (handle EvEnded playing_track1) = Some track1 /\
  isPlaying (handle EvEnded playing_track1) = false.
Proof.
  apply (proj2 (proj2 (proj2 (proj2 (proj2 (proj2 (C8_natural_end playing_track1))))))
           track1).
  reflexivity.
Defined.

(** C10: removing an id that is not the current track's id drops exactly
    the tracks with that id, keeps the others in order, and leaves the
    current track, the playing flag, the progress and the volume as they
    were. *)
Theorem C10_remove_other_track (s : State) (x : string) :
  (forall c, currentTrack s = Some c -> id c <> x) ->
  let s' := removeTrack x s in
  tracks s' = filter (keeps x) (tracks s) /\
  (forall u, In u (tracks s') <-> In u (tracks s) /\ id u <> x) /\
  currentTrack s' = currentTrack s /\
  isPlaying s' = isPlaying s /\
  progress s' = progress s /\
  volume s' = volume s /\
  audioRef s' = audioRef s.
Proof.
  intros Hx s'. subst s'.
  assert (Hn : current_id_is x s = false).
  { unfold current_id_is. destruct (currentTrack s) as [c|] eqn:Hc; [|reflexivity].
    destruct (String.eqb (id c) x) eqn:E; [|reflexivity].
    apply String.eqb_eq in E. now elim (Hx c eq_refl). }
  split; [apply removeTrack_tracks|].
  split; [intros u; apply removeTrack_In|].
  unfold removeTrack. rewrite Hn. repeat split.
Qed.

Lemma C10_remove_other_witness :
  let s' := removeTrack "t2" two_tracks_playing in
  tracks s' = filter (keeps "t2") (tracks two_tracks_playing) /\
  (forall u, In u (tracks s') <-> In u (tracks two_tracks_playing) /\ id u <> "t2") /\
  currentTrack s' = currentTrack two_tracks_playing /\
  isPlaying s' = isPlaying two_tracks_playing /\
  progress s' = progress two_tracks_playing /\
  volume s' = volume two_tracks_playing /\
  audioRef s' = audioRef two_tracks_playing.
Proof.
  apply (C10_remove_other_track two_tracks_playing "t2").
  intros c Hc. injection Hc as <-. discriminate.
Defined.

Example remove_other_track_example :
  tracks two_tracks_playing = [track1; track2] /\
  tracks (removeTrack "t2" two_tracks_playing) = [track1] /\
  tracks (removeTrack "t1" two_tracks_playing) = [track2].
Proof. repeat split. Qed.

(** ** The bars *)

Lemma bar_level_zero : bar_level 0 = 4.
Proof. reflexivity. Qed.

Lemma bar_level_bounds (v : Z) :
  in_byte_range v -> 4 <= bar_level v /\ bar_level v <= 100.
Proof.
  intros [Hlo Hhi]. unfold bar_level. split.
  - apply Q.le_max_l.
  - apply Q.max_lub; [discriminate|].
    unfold Qle, Qdiv, Qmult, Qinv, inject_Z; simpl. lia.
Qed.

Lemma rendered_height_spec (playing : bool) (v : Z) :
  rendered_height (renderBar playing v) = spec_bar_height playing v.
Proof. destruct playing; reflexivity. Qed.

(** C9: the bars depend on the snapshot and on [isPlaying] only; each bar
    is driven to [max(4, value/255 * 100)] percent while playing and to 4
    percent otherwise, which for a byte value lies between 4 and 100; there
    is one bar per entry, none for an empty snapshot, and an all-zero
    snapshot gives bars of the minimum height. *)
Theorem C9_bar_heights (snapshot : list Z) (playing : bool) :
  map rendered_height (renderBars snapshot playing) =
    map (spec_bar_height playing) snapshot /\
  List.length (renderBars snapshot playing) = List.length snapshot /\
  renderBars [] playing = [] /\
  (forall n, map rendered_height (renderBars (repeat 0%Z n) playing) =
             repeat spec_min_height n) /\
  (forall v, in_byte_range v ->
     rendered_height (renderBar true v) = Qmax 4 (inject_Z v / 255 * 100) /\
     rendered_height (renderBar false v) = 4 /\
     4 <= rendered_height (renderBar playing v) /\
     rendered_height (renderBar playing v) <= 100).
Proof.
  split; [|split; [|split; [|split]]].
  - unfold renderBars. rewrite map_map. apply map_ext.
    intros v. apply rendered_height_spec.
  - unfold renderBars. apply length_map.
  - reflexivity.
  - intros n. unfold renderBars.
    induction n as [|n IH]; cbn [repeat map]; [reflexivity|].
    rewrite IH. f_equal. destruct playing; reflexivity.
  - intros v Hv. split; [reflexivity|]. split; [reflexivity|].
    destruct playing; simpl.
    + apply bar_level_bounds, Hv.
    + split; discriminate.
Qed.

Lemma C9_bar_heights_witness :
  rendered_height (renderBar true 255) = Qmax 4 (inject_Z 255 / 255 * 100) /\
  rendered_height (renderBar false 255) = 4 /\
  4 <= rendered_height (renderBar true 255) /\
  rendered_height (renderBar true 255) <= 100.
Proof.
  apply (proj2 (proj2 (proj2 (proj2 (C9_bar_heights [] true)))) 255%Z).
  unfold in_byte_range. lia.
Defined.

Example bars_of_a_frame :
  map rendered_height (renderBars [0; 5; 128; 255]%Z true) =
    [4; 4; 12800 # 255; 25500 # 255] /\
  map rendered_height (renderBars [0; 5; 128; 255]%Z false) = [4; 4; 4; 4] /\
  map style_glow (renderBars [0; 5; 128; 255]%Z true) = [false; false; false; true].
Proof. repeat split. Qed.

(** * Further properties of the component *)

(** ** Time labels *)

Lemma Qfloor_unique (x : Q) (z : Z) :
  inject_Z z <= x -> x < inject_Z (z + 1) -> Qfloor x = z.
Proof.
  intros Hlo Hhi.
  pose proof (Qfloor_resp_le _ _ Hlo) as H1. rewrite Qfloor_Z in H1.
  assert (H2 : inject_Z (Qfloor x) < inject_Z (z + 1))
    by (eapply Qle_lt_trans; [apply Qfloor_le | exact Hhi]).
  rewrite <- Zlt_Qlt in H2. lia.
Qed.

Lemma Qtrunc_nonneg (q : Q) : 0 <= q -> JsFormat.Qtrunc q = Qfloor q.
Proof.
  destruct q as [n d]. unfold Qle, JsFormat.Qtrunc, Qfloor. simpl. intros H.
  apply Z.quot_div_nonneg; lia.
Qed.

Lemma floor_of_minutes (seconds : Q) :
  0 <= seconds -> Qfloor (seconds / 60) = (Qfloor seconds / 60)%Z.
Proof.
  intros H0.
  pose proof (Qfloor_le seconds) as Hlo. pose proof (Qlt_floor seconds) as Hhi.
  set (n := Qfloor seconds) in *.
  pose proof (Z.mul_div_le n 60 ltac:(lia)) as Ha.
  pose proof (Z.mul_succ_div_gt n 60 ltac:(lia)) as Hb.
  assert (Ha' : inject_Z (n / 60) * 60 <= inject_Z n).
  { change 60 with (inject_Z 60). rewrite <- inject_Z_mult, <- Zle_Qle. lia. }
  assert (Hb' : inject_Z (n + 1) <= inject_Z (n / 60 + 1) * 60).
  { change 60 with (inject_Z 60). rewrite <- inject_Z_mult, <- Zle_Qle. lia. }
  rewrite inject_Z_plus in Hb'. rewrite inject_Z_plus in Hhi.
  apply Qfloor_unique.
  - apply Qle_shift_div_l; [reflexivity|]. lra.
  - apply Qlt_shift_div_r; [reflexivity|]. rewrite inject_Z_plus in *. lra.
Qed.

Lemma floor_of_remainder (seconds : Q) :
  0 <= seconds ->
  Qfloor (JsFormat.js_rem seconds 60) = (Qfloor seconds mod 60)%Z.
Proof.
  intros H0. unfold JsFormat.js_rem.
  assert (Hq : 0 <= seconds / 60) by (apply Qle_shift_div_l; [reflexivity | lra]).
  rewrite (Qtrunc_nonneg _ Hq), (floor_of_minutes _ H0).
  pose proof (Qfloor_le seconds) as Hlo. pose proof (Qlt_floor seconds) as Hhi.
  set (n := Qfloor seconds) in *.
  rewrite (Z.mod_eq n 60) by lia.
  rewrite inject_Z_plus in Hhi.
  apply Qfloor_unique.
  - unfold Z.sub. rewrite inject_Z_plus, inject_Z_opp, inject_Z_mult.
    change (inject_Z 60) with 60. lra.
  - unfold Z.sub. rewrite !inject_Z_plus, inject_Z_opp, inject_Z_mult.
    change (inject_Z 60) with 60. change (inject_Z 1) with 1 in *. lra.
Qed.

Lemma two_digit_seconds (sec : Z) :
  (0 <= sec < 60)%Z ->
  String.length (JsFormat.padStart 2 "0" (JsFormat.toString sec)) = 2%nat.
Proof.
  intros H. rewrite <- (Z2Nat.id sec) by lia.
  assert (Hn : (Z.to_nat sec < 60)%nat) by lia.
  generalize dependent (Z.to_nat sec). intros n Hn.
  do 60 (destruct n as [|n]; [reflexivity|]). lia.
Qed.

(** X1: for a number of seconds from 0 up to 2^53, [formatTime] prints
    the whole minutes, a colon, and the remaining whole seconds on exactly
    two characters; minutes and seconds together are the whole seconds of
    the input, and the seconds stay below 60. *)
Theorem formatTime_minutes_and_seconds (seconds : Q) :
  0 <= seconds -> seconds < 9007199254740992 ->
  let whole := Qfloor seconds in
  let mins := (whole / 60)%Z in
  let secs := (whole mod 60)%Z in
  formatTime seconds =
    (JsFormat.toString mins ++ ":"
       ++ JsFormat.padStart 2 "0" (JsFormat.toString secs))%string /\
  String.length (JsFormat.padStart 2 "0" (JsFormat.toString secs)) = 2%nat /\
  (0 <= mins < 150119987579017 /\ 0 <= secs < 60 /\ 60 * mins + secs = whole)%Z.
Proof.
  intros H0 Hmax whole mins secs.
  assert (Hw : (0 <= whole)%Z).
  { exact (Qfloor_resp_le 0 seconds H0). }
  assert (Hw' : (whole < 9007199254740992)%Z).
  { pose proof (Qfloor_le seconds) as Hle.
    assert (Hlt : inject_Z whole < inject_Z 9007199254740992)
      by (eapply Qle_lt_trans; [exact Hle | exact Hmax]).
    now rewrite <- Zlt_Qlt in Hlt. }
  pose proof (Z.mod_pos_bound whole 60 ltac:(lia)) as Hs.
  split; [|split].
  - unfold formatTime.
    now rewrite (floor_of_minutes _ H0), (floor_of_remainder _ H0).
  - now apply two_digit_seconds.
  - subst mins secs. split; [|split; [exact Hs|]].
    + split; [apply Z.div_pos; lia|].
      apply Z.div_lt_upper_bound; lia.
    + symmetry. apply Z.div_mod. lia.
Qed.

Lemma formatTime_witness :
  formatTime (2519 # 20) =
    (JsFormat.toString (Qfloor (2519 # 20) / 60) ++ ":"
       ++ JsFormat.padStart 2 "0"
            (JsFormat.toString (Qfloor (2519 # 20) mod 60)))%string /\
  String.length (JsFormat.padStart 2 "0"
                   (JsFormat.toString (Qfloor (2519 # 20) mod 60))) = 2%nat /\
  (0 <= Qfloor (2519 # 20) / 60 < 150119987579017 /\
   0 <= Qfloor (2519 # 20) mod 60 < 60 /\
   60 * (Qfloor (2519 # 20) / 60) + Qfloor (2519 # 20) mod 60
     = Qfloor (2519 # 20))%Z.
Proof.
  apply (formatTime_minutes_and_seconds (2519 # 20)).
  - discriminate.
  - reflexivity.
Defined.

Example formatTime_examples :
  formatTime 0 = "0:00" /\ formatTime (2519 # 20) = "2:05" /\
  formatTime 180 = "3:00" /\ formatTime 3599 = "59:59" /\
  formatTime 3600 = "60:00".
Proof. repeat split. Qed.

(** ** Case analysis on the handlers *)

Ltac unfold_handlers :=
  unfold playTrack, togglePlay, removeTrack, handleSeek, handleVolumeChange,
    onEnded, handleTimeUpdate, fireTimeout, playTimeout, updateWaveform,
    loadedMetadata, initAudioContext, current_id_is in *.

Ltac split_matches :=
  repeat match goal with
         | |- context [match ?x with _ => _ end] => destruct x eqn:?
         end.

Ltac rewrite_eqs :=
  repeat match goal with
         | H : ?x = _ |- context [?x] => rewrite H
         end.

(** The upload handler writes the list of pending listeners and nothing
    else. *)
Lemma handleFileUpload_writes_pending (mk : File -> string)
    (files : option (list File)) (s : State) :
  exists l, handleFileUpload mk files s = setPendingUploads l s.
Proof.
  destruct files as [fs|]; simpl.
  - revert s. induction fs as [|f fs IH]; intros s; simpl.
    + exists (pendingUploads s). now destruct s.
    + destruct (IH (upload_one mk s f)) as [l Hl]. rewrite Hl.
      unfold upload_one. destruct (accepts f); eexists; reflexivity.
  - exists (pendingUploads s). now destruct s.
Qed.

(** ** The element stays mounted and the drag guard stays open *)

Lemma mounted_ok_handle (ev : Event) (s : State) :
  mounted_ok s -> mounted_ok (handle ev s).
Proof.
  unfold mounted_ok. intros [Ha Hd].
  destruct ev; simpl;
    try (destruct (handleFileUpload_writes_pending createObjectURL files s)
           as [l ->]);
    unfold_handlers; split_matches; simpl; split; congruence.
Qed.

Lemma reachable_mounted_ok (s : State) : reachable s -> mounted_ok s.
Proof.
  induction 1 as [a|s ev _ IH].
  - split; [discriminate | reflexivity].
  - now apply mounted_ok_handle.
Qed.

(** X2: no handler ever sets the drag guard, and the element stays
    attached: in every reachable state a [timeupdate] of the platform goes
    through, and for a medium of positive duration it sets the progress to
    position / duration x 100. *)
Theorem timeupdate_always_applies (s : State) :
  reachable s ->
  isDragging s = false /\
  audioRef s <> None /\
  (forall a, audioRef s = Some a -> 0 < media_duration a ->
     handleTimeUpdate s =
       setProgress (currentTime a / media_duration a * 100) s).
Proof.
  intros Hr. destruct (reachable_mounted_ok s Hr) as [Ha Hd].
  split; [exact Hd|]. split; [exact Ha|].
  intros a E _. unfold handleTimeUpdate. now rewrite E, Hd.
Qed.

Lemma timeupdate_witness :
  isDragging playing_one_frame = false /\
  audioRef playing_one_frame <> None /\
  handleTimeUpdate playing_one_frame =
    setProgress (currentTime (play audio180) / media_duration (play audio180) * 100)
      playing_one_frame.
Proof.
  destruct (timeupdate_always_applies playing_one_frame) as (Hd & Ha & Hp).
  - apply reachable_run, reach_initial.
  - split; [exact Hd|]. split; [exact Ha|].
    apply (Hp (play audio180)); reflexivity.
Defined.

(** X3: a position between the start and the end of a medium of positive
    length gives a progress between 0 and 100. *)
Theorem timeupdate_progress_in_range (s : State) (a : HTMLAudioElement) :
  audioRef s = Some a -> isDragging s = false ->
  0 < media_duration a ->
  0 <= currentTime a -> currentTime a <= media_duration a ->
  0 <= progress (handleTimeUpdate s) /\ progress (handleTimeUpdate s) <= 100.
Proof.
  intros Ha Hd HD H0 H1. unfold handleTimeUpdate. rewrite Ha, Hd. simpl.
  assert (Hq0 : 0 <= currentTime a / media_duration a)
    by (apply Qle_shift_div_l; [exact HD | lra]).
  assert (Hq1 : currentTime a / media_duration a <= 1)
    by (apply Qle_shift_div_r; [exact HD | lra]).
  split; lra.
Qed.

Lemma timeupdate_range_witness :
  let s := setAudio (mkAudio 45 180 1 false) playing_track1 in
  0 <= progress (handleTimeUpdate s) /\ progress (handleTimeUpdate s) <= 100.
Proof.
  apply (timeupdate_progress_in_range
           (setAudio (mkAudio 45 180 1 false) playing_track1)
           (mkAudio 45 180 1 false)).
  - reflexivity.
  - reflexivity.
  - reflexivity.
  - discriminate.
  - discriminate.
Defined.

(** ** Volume *)

(** X5: a volume change stores the new value in the state and in the
    element, leaves the element's position, duration and paused flag and the
    rest of the state alone, and a second change overwrites the first. *)
Theorem volume_change_syncs_element (v v0 : Q) (s : State) (a : HTMLAudioElement) :
  audioRef s = Some a ->
  let s' := handleVolumeChange v s in
  volume s' = v /\
  audioRef s' = Some (set_media_volume v a) /\
  (exists a', audioRef s' = Some a' /\ media_volume a' = volume s' /\
     currentTime a' = currentTime a /\ media_duration a' = media_duration a /\
     paused a' = paused a) /\
  (tracks s' = tracks s /\ currentTrack s' = currentTrack s /\
   isPlaying s' = isPlaying s /\ progress s' = progress s /\
   waveformData s' = waveformData s) /\
  handleVolumeChange v (handleVolumeChange v0 s) = s'.
Proof.
  intros Ha. unfold handleVolumeChange. simpl. rewrite Ha. simpl.
  repeat split. eexists. repeat split.
Qed.

Lemma volume_change_witness :
  let s' := handleVolumeChange (1 # 4) playing_track1 in
  volume s' = 1 # 4 /\
  audioRef s' = Some (set_media_volume (1 # 4) audio180) /\
  (exists a', audioRef s' = Some a' /\ media_volume a' = volume s' /\
     currentTime a' = currentTime audio180 /\
     media_duration a' = media_duration audio180 /\
     paused a' = paused audio180) /\
  (tracks s' = tracks playing_track1 /\
   currentTrack s' = currentTrack playing_track1 /\
   isPlaying s' = isPlaying playing_track1 /\
   progress s' = progress playing_track1 /\
   waveformData s' = waveformData playing_track1) /\
  handleVolumeChange (1 # 4) (handleVolumeChange (3 # 4) playing_track1) = s'.
Proof.
  apply (volume_change_syncs_element (1 # 4) (3 # 4) playing_track1 audio180).
  reflexivity.
Defined.

Lemma volume_kept_by_other_events (ev : Event) (s : State) :
  is_volume_event ev = false ->
  volume (handle ev s) = volume s /\
  option_map media_volume (audioRef (handle ev s)) =
    option_map media_volume (audioRef s).
Proof.
  intros Hev.
  destruct ev; try discriminate; simpl;
    try (destruct (handleFileUpload_writes_pending createObjectURL files s)
           as [l ->]);
    unfold_handlers; split_matches; simpl in *; rewrite_eqs; simpl; split; congruence.
Qed.

(** X6: only the volume slider writes a volume.  Whatever else happens,
    the state keeps its initial 0.8 and the element keeps the volume it was
    mounted with: the initial value of the state is never pushed to the
    element. *)
Theorem volume_untouched_without_slider (evs : list Event) (a : HTMLAudioElement) :
  forallb (fun ev => negb (is_volume_event ev)) evs = true ->
  volume (run evs (initial a)) = 8 # 10 /\
  exists a', audioRef (run evs (initial a)) = Some a' /\
             media_volume a' = media_volume a.
Proof.
  intros Hev.
  assert (H : forall s,
             volume (run evs s) = volume s /\
             option_map media_volume (audioRef (run evs s)) =
               option_map media_volume (audioRef s)).
  { induction evs as [|ev evs IH]; intros s; simpl; [auto|].
    simpl in Hev. apply andb_true_iff in Hev. destruct Hev as [H1 H2].
    apply negb_true_iff in H1.
    destruct (IH H2 (handle ev s)) as [Hv Hm].
    destruct (volume_kept_by_other_events ev s H1) as [Hv' Hm'].
    split; congruence. }
  destruct (H (initial a)) as [Hv Hm]. split; [exact Hv|].
  simpl in Hm. destruct (audioRef (run evs (initial a))) as [a'|];
    [|discriminate].
  exists a'. split; [reflexivity|]. simpl in Hm. congruence.
Qed.

Lemma volume_untouched_witness :
  volume (run [EvPlayTrack track1; EvTimeout; EvSeek click_middle]
            (initial audio180)) = 8 # 10 /\
  exists a', audioRef (run [EvPlayTrack track1; EvTimeout; EvSeek click_middle]
                         (initial audio180)) = Some a' /\
             media_volume a' = media_volume audio180.
Proof.
  apply (volume_untouched_without_slider
           [EvPlayTrack track1; EvTimeout; EvSeek click_middle] audio180).
  reflexivity.
Defined.

(** ** The analysis graph *)

Lemma graph_kept_by_handle (ev : Event) (s : State) :
  audioContextRef s <> None ->
  audioContextRef (handle ev s) = audioContextRef s /\
  analyserRef (handle ev s) = analyserRef s.
Proof.
  intros Hc.
  destruct ev; simpl;
    try (destruct (handleFileUpload_writes_pending createObjectURL files s)
           as [l ->]);
    unfold_handlers; simpl; split_matches; simpl in *; rewrite_eqs; simpl; split; congruence.
Qed.

(** X7: the analysis graph is built once: [initAudioContext] on a state
    that has a graph changes nothing, and once a graph exists no event
    replaces it or takes it down. *)
Theorem audio_graph_built_once (evs : list Event) (s : State) :
  audioContextRef s <> None ->
  initAudioContext s = s /\
  audioContextRef (run evs s) = audioContextRef s /\
  analyserRef (run evs s) = analyserRef s.
Proof.
  intros Hc. split.
  - unfold initAudioContext. destruct (audioContextRef s); [reflexivity|].
    contradiction.
  - revert s Hc. induction evs as [|ev evs IH]; intros s Hc; simpl; [auto|].
    destruct (graph_kept_by_handle ev s Hc) as [H1 H2].
    destruct (IH (handle ev s)) as [H3 H4]; [congruence|].
    split; congruence.
Qed.

Lemma audio_graph_witness :
  let s := run [EvPlayTrack track1; EvTimeout] (initial audio180) in
  let evs := [EvTogglePlay; EvRemoveTrack "t1"; EvPlayTrack track2; EvTimeout] in
  initAudioContext s = s /\
  audioContextRef (run evs s) = audioContextRef s /\
  analyserRef (run evs s) = analyserRef s.
Proof.
  apply (audio_graph_built_once
           [EvTogglePlay; EvRemoveTrack "t1"; EvPlayTrack track2; EvTimeout]
           (run [EvPlayTrack track1; EvTimeout] (initial audio180))).
  discriminate.
Defined.

Lemma graph_paired_handle (ev : Event) (s : State) :
  graph_paired s -> graph_paired (handle ev s).
Proof.
  intros [Hp Hb].
  destruct (audioContextRef s) as [c|] eqn:Hc.
  - destruct (graph_kept_by_handle ev s) as [H1 H2]; [congruence|].
    unfold graph_paired. rewrite H1, H2, Hc. split; [exact Hp | exact Hb].
  - assert (Hn : analyserRef s = None) by (now apply Hp).
    unfold graph_paired.
    destruct ev; simpl;
      try (destruct (handleFileUpload_writes_pending createObjectURL files s)
             as [l ->]);
      unfold_handlers; simpl; rewrite ?Hc, ?Hn; split_matches; simpl;
      rewrite ?Hc, ?Hn;
      (split; [split; congruence | intros an [= <-] || congruence; reflexivity]).
Qed.

Lemma reachable_graph_paired (s : State) : reachable s -> graph_paired s.
Proof.
  induction 1 as [a|s ev _ IH].
  - split; [tauto | discriminate].
  - now apply graph_paired_handle.
Qed.

(** X8: in every reachable state the context and the analyser exist
    together or not at all, and an analyser, when there is one, has 64
    bins. *)
Theorem audio_graph_paired (s : State) :
  reachable s ->
  (audioContextRef s = None <-> analyserRef s = None) /\
  (forall an, analyserRef s = Some an -> frequencyBinCount an = 64%nat).
Proof.
  intros Hr. exact (reachable_graph_paired s Hr).
Qed.

Lemma audio_graph_paired_witness :
  (audioContextRef playing_one_frame = None <->
   analyserRef playing_one_frame = None) /\
  (forall an, analyserRef playing_one_frame = Some an ->
              frequencyBinCount an = 64%nat).
Proof.
  apply (audio_graph_paired playing_one_frame).
  apply reachable_run, reach_initial.
Defined.

(** ** The sampler *)

Lemma fill_from_fresh (an : AnalyserNode) (sp : Spectrum) (n : nat) :
  forall i, (i + n <= frequencyBinCount an)%nat ->
  fill_from i an sp (repeat x00 n) = map sp (seq i n).
Proof.
  induction n as [|n IH]; intros i Hi; simpl; [reflexivity|].
  assert (Hlt : (i <? frequencyBinCount an)%nat = true)
    by (apply Nat.ltb_lt; lia).
  rewrite Hlt, IH by lia. reflexivity.
Qed.

(** X9: while playing with the graph in place, one frame replaces the
    snapshot by the analyser's magnitudes, bin by bin: entry [i] is the byte
    the analyser holds for bin [i], for the 64 bins, whatever the snapshot
    was before. *)
Theorem sampler_copies_the_bins (sp : Spectrum) (s : State) :
  reachable s -> isPlaying s = true -> analyserRef s <> None ->
  waveformData (updateWaveform sp s) =
    map (fun i => byte_value (sp i)) (seq 0 64).
Proof.
  intros Hr Hp Han.
  destruct (reachable_graph_paired s Hr) as [_ Hbins].
  unfold updateWaveform.
  destruct (analyserRef s) as [an|] eqn:E; [|contradiction].
  rewrite Hp. simpl. unfold getByteFrequencyData, new_Uint8Array.
  rewrite fill_from_fresh by lia. rewrite (Hbins an eq_refl).
  unfold Array_from. rewrite map_map. reflexivity.
Qed.

Lemma sampler_witness :
  let s := run [EvPlayTrack track1; EvTimeout] (initial audio180) in
  let sp := fun i : nat => if (i <? 2)%nat then xff else x10 in
  waveformData (updateWaveform sp s) =
    map (fun i => byte_value (sp i)) (seq 0 64).
Proof.
  apply (sampler_copies_the_bins
           (fun i : nat => if (i <? 2)%nat then xff else x10)
           (run [EvPlayTrack track1; EvTimeout] (initial audio180))).
  - apply reachable_run, reach_initial.
  - reflexivity.
  - discriminate.
Defined.

Lemma snapshot_kept_by_handle (ev : Event) (s : State) :
  is_frame_event ev = false -> waveformData (handle ev s) = waveformData s.
Proof.
  intros Hev.
  destruct ev; try discriminate; simpl;
    try (destruct (handleFileUpload_writes_pending createObjectURL files s)
           as [l ->]);
    unfold_handlers; split_matches; reflexivity.
Qed.

(** X10: the snapshot is written by animation frames only, and only by
    those that find the player playing with an analyser: pausing, the end of
    the track, removing the track or switching it leave the last sampled
    bars in the state. *)
Theorem snapshot_written_by_frames_only (evs : list Event) (sp : Spectrum)
    (s : State) :
  (forallb (fun ev => negb (is_frame_event ev)) evs = true ->
   waveformData (run evs s) = waveformData s) /\
  (isPlaying s = false \/ analyserRef s = None -> updateWaveform sp s = s).
Proof.
  split.
  - revert s. induction evs as [|ev evs IH]; intros s Hev; simpl; [reflexivity|].
    simpl in Hev. apply andb_true_iff in Hev. destruct Hev as [H1 H2].
    apply negb_true_iff in H1.
    rewrite (IH _ H2). now apply snapshot_kept_by_handle.
  - intros [Hp|Han]; unfold updateWaveform.
    + rewrite Hp. now destruct (analyserRef s).
    + now rewrite Han.
Qed.

Lemma snapshot_frames_only_witness :
  waveformData (run [EvTogglePlay; EvEnded; EvRemoveTrack "t1"] playing_one_frame)
    = waveformData playing_one_frame /\
  updateWaveform (fun _ => x00) (initial audio180) = initial audio180.
Proof.
  split.
  - apply (proj1 (snapshot_written_by_frames_only
                    [EvTogglePlay; EvEnded; EvRemoveTrack "t1"]
                    (fun _ => x00) playing_one_frame)).
    reflexivity.
  - apply (proj2 (snapshot_written_by_frames_only [] (fun _ => x00)
                    (initial audio180))).
    left. reflexivity.
Defined.

(** ** Play, pause and the deferred play *)



(** X12: the play that a track switch defers is not called off by a
    pause.  Selecting a new track and pausing before the timeout has run
    leaves [isPlaying] false, and the timeout then still calls [play()]:
    the element plays while the state says paused. *)
Theorem deferred_play_survives_pause (s : State) (t : Track)
    (a : HTMLAudioElement) :
  audioRef s = Some a -> current_id_is (id t) s = false ->
  let s' := run [EvPlayTrack t; EvTogglePlay; EvTimeout] s in
  currentTrack s' = Some t /\ isPlaying s' = false /\
  pendingTimeouts s' = pendingTimeouts s /\
  exists a', audioRef s' = Some a' /\ paused a' = false.
Proof.
  intros Ha Hn. simpl. unfold playTrack. rewrite Hn.
  unfold togglePlay. simpl. rewrite Ha. simpl.
  unfold fireTimeout, playTimeout, initAudioContext. simpl.
  destruct (audioContextRef s); simpl; repeat split; eexists; split; reflexivity.
Qed.

Lemma deferred_play_witness :
  let s' := run [EvPlayTrack track1; EvTogglePlay; EvTimeout] (initial audio180) in
  currentTrack s' = Some track1 /\ isPlaying s' = false /\
  pendingTimeouts s' = pendingTimeouts (initial audio180) /\
  exists a', audioRef s' = Some a' /\ paused a' = false.
Proof.
  apply (deferred_play_survives_pause (initial audio180) track1 audio180);
    reflexivity.
Defined.

(** ** More on removing tracks *)

Lemma filter_twice {A : Type} (f : A -> bool) (l : list A) :
  filter f (filter f l) = filter f l.
Proof.
  induction l as [|x l IH]; simpl; [reflexivity|].
  destruct (f x) eqn:E; simpl; [rewrite E, IH|]; auto.
Qed.

Lemma filter_swap {A : Type} (f g : A -> bool) (l : list A) :
  filter f (filter g l) = filter g (filter f l).
Proof.
  induction l as [|x l IH]; simpl; [reflexivity|].
  destruct (f x) eqn:Ef, (g x) eqn:Eg; simpl; rewrite ?Ef, ?Eg, IH; reflexivity.
Qed.

Lemma filter_all {A : Type} (f : A -> bool) (l : list A) :
  (forall x, In x l -> f x = true) -> filter f l = l.
Proof.
  induction l as [|x l IH]; intros H; simpl; [reflexivity|].
  rewrite (H x (or_introl eq_refl)), IH; [reflexivity|].
  intros y Hy. apply H. now right.
Qed.

(** X13: removing the same id twice is removing it once, and two removals
    can be done in either order: the resulting states are equal. *)
Theorem removeTrack_idempotent_and_commutes (x y : string) (s : State) :
  removeTrack x (removeTrack x s) = removeTrack x s /\
  removeTrack x (removeTrack y s) = removeTrack y (removeTrack x s).
Proof.
  split.
  - unfold removeTrack, current_id_is.
    destruct (currentTrack s) as [c|] eqn:Hc; simpl.
    + destruct (String.eqb (id c) x) eqn:E; simpl.
      * now rewrite filter_twice.
      * rewrite Hc, E. simpl. now rewrite filter_twice.
    + rewrite Hc. simpl. now rewrite filter_twice.
  - unfold removeTrack, current_id_is.
    destruct (currentTrack s) as [c|] eqn:Hc; simpl.
    + destruct (String.eqb (id c) x) eqn:Ex, (String.eqb (id c) y) eqn:Ey;
        simpl; rewrite ?Hc, ?Ex, ?Ey; simpl;
        rewrite (filter_swap (fun t => negb (String.eqb (id t) x))); reflexivity.
    + rewrite Hc. simpl.
      rewrite (filter_swap (fun t => negb (String.eqb (id t) x))); reflexivity.
Qed.

(** X14: removing an id that no track of the registry carries, and that
    is not the current track's, changes nothing at all. *)
Theorem removeTrack_unknown_id (x : string) (s : State) :
  (forall t, In t (tracks s) -> id t <> x) ->
  (forall c, currentTrack s = Some c -> id c <> x) ->
  removeTrack x s = s.
Proof.
  intros Hreg Hcur. unfold removeTrack, current_id_is.
  rewrite filter_all.
  - destruct (currentTrack s) as [c|] eqn:Hc.
    + destruct (String.eqb (id c) x) eqn:E.
      * apply String.eqb_eq in E. now elim (Hcur c eq_refl).
      * now destruct s.
    + now destruct s.
  - intros t Ht. apply negb_true_iff. apply String.eqb_neq. now apply Hreg.
Qed.

Lemma removeTrack_unknown_witness :
  removeTrack "t7" two_tracks_playing = two_tracks_playing.
Proof.
  apply (removeTrack_unknown_id "t7" two_tracks_playing).
  - intros t [<-|[<-|[]]]; discriminate.
  - intros c Hc. injection Hc as <-. discriminate.
Defined.

(** ** Metadata listeners *)

(** X15: a [loadedmetadata] callback for a listener that does not exist
    (an index past the end) does nothing; one for a registered listener
    puts one track for its file at the end of the registry, which keeps its
    earlier tracks at their places, and touches nothing else: the listener
    stays registered, so a second callback adds a second track for the same
    file. *)
Theorem loadedMetadata_appends_and_stays_registered (i : nat) (newId : string)
    (d : Q) (s : State) :
  ((List.length (pendingUploads s) <= i)%nat -> loadedMetadata i newId d s = s) /\
  (forall p, nth_error (pendingUploads s) i = Some p ->
     let s' := loadedMetadata i newId d s in
     s' = setTracks (tracks s ++ [newTrack p newId d]) s /\
     List.length (tracks s') = S (List.length (tracks s)) /\
     firstn (List.length (tracks s)) (tracks s') = tracks s /\
     pendingUploads s' = pendingUploads s /\
     forall newId' d',
       tracks (loadedMetadata i newId' d' s') =
       tracks s ++ [newTrack p newId d; newTrack p newId' d']).
Proof.
  split.
  - intros Hi. unfold loadedMetadata.
    apply nth_error_None in Hi. now rewrite Hi.
  - intros p E. unfold loadedMetadata. rewrite E. simpl.
    split; [reflexivity|]. split; [|split; [|split]].
    + rewrite length_app. simpl. lia.
    + rewrite firstn_app, Nat.sub_diag, firstn_all. simpl. apply app_nil_r.
    + reflexivity.
    + intros newId' d'. rewrite E. simpl. now rewrite <- app_assoc.
Qed.

Lemma loadedMetadata_witness :
  let s := handleFileUpload (fun _ => "blob:1") (Some [file track1])
             (initial audio180) in
  loadedMetadata 3 "t1" 180 s = s /\
  tracks (loadedMetadata 0 "t1" 180 s) = [track1] /\
  tracks (loadedMetadata 0 "t1b" 180 (loadedMetadata 0 "t1" 180 s)) =
    [track1; mkTrack "t1b" "track1" (file track1) "blob:1" 180].
Proof.
  intros s.
  destruct (loadedMetadata_appends_and_stays_registered 3 "t1" 180 s) as [Hout _].
  destruct (loadedMetadata_appends_and_stays_registered 0 "t1" 180 s) as [_ Hin].
  split; [apply Hout; simpl; lia|].
  destruct (Hin (mkPending (file track1) "blob:1") eq_refl)
    as (Hs & _ & _ & _ & Htwice).
  split; [now rewrite Hs|]. exact (Htwice "t1b" 180).
Defined.

(** ** The current track and the registry *)

Lemma current_listed_handle (ev : Event) (s : State) :
  (forall t, ev = EvPlayTrack t -> In t (tracks s)) ->
  current_listed s -> current_listed (handle ev s).
Proof.
  unfold current_listed. intros Hsel H.
  destruct ev; simpl in *;
    try (destruct (handleFileUpload_writes_pending createObjectURL files s)
           as [l ->]; exact H).
  - unfold playTrack. destruct (current_id_is (id track) s).
    + rewrite togglePlay_currentTrack.
      unfold togglePlay, initAudioContext.
      destruct (audioRef s), (isPlaying s), (audioContextRef s); exact H.
    + simpl. intros c [= <-]. now apply Hsel.
  - rewrite togglePlay_currentTrack.
    unfold togglePlay, initAudioContext.
    destruct (audioRef s), (isPlaying s), (audioContextRef s); exact H.
  - intros c Hc. rewrite removeTrack_In. unfold removeTrack in Hc.
    destruct (current_id_is x s) eqn:E; [discriminate|]. simpl in Hc.
    split; [now apply H|]. unfold current_id_is in E. rewrite Hc in E.
    now apply String.eqb_neq.
  - unfold handleSeek. destruct (audioRef s); exact H.
  - unfold handleVolumeChange. simpl. destruct (audioRef s); exact H.
  - exact H.
  - unfold handleTimeUpdate.
    destruct (audioRef s); [destruct (negb (isDragging s))|]; exact H.
  - unfold fireTimeout, playTimeout, initAudioContext.
    destruct (pendingTimeouts s); [exact H|]. simpl.
    destruct (audioRef s); [destruct (audioContextRef s)|]; exact H.
  - unfold updateWaveform.
    destruct (analyserRef s); [destruct (isPlaying s)|]; exact H.
  - unfold loadedMetadata. destruct (nth_error _ _); [|exact H].
    simpl. intros c Hc. apply in_or_app. left. now apply H.
Qed.

(** X16: no handler leaves the current track outside the registry, save
    one: a selection of a track that is not in the registry.  From a state
    whose current track is registered, every other event (a removal
    included: removing the current track's id clears the current track)
    leads to a state whose current track is registered. *)
Theorem current_track_stays_listed (ev : Event) (s : State) :
  (forall t, ev = EvPlayTrack t -> In t (tracks s)) ->
  (forall c, currentTrack s = Some c -> In c (tracks s)) ->
  forall c, currentTrack (handle ev s) = Some c -> In c (tracks (handle ev s)).
Proof.
  intros Hsel H. exact (current_listed_handle ev s Hsel H).
Qed.

Lemma current_track_stays_listed_witness :
  currentTrack (handle (EvRemoveTrack "t2") two_tracks_playing) = Some track1 /\
  In track1 (tracks (handle (EvRemoveTrack "t2") two_tracks_playing)).
Proof.
  split; [reflexivity|].
  apply (current_track_stays_listed (EvRemoveTrack "t2") two_tracks_playing).
  - intros t Ht. discriminate Ht.
  - intros c Hc. injection Hc as <-. left. reflexivity.
  - reflexivity.
Defined.

(** ** The track list and the labels *)

Lemma mapi_from_length {A B : Type} (f : nat -> A -> B) (xs : list A) :
  forall i, List.length (mapi_from f i xs) = List.length xs.
Proof.
  induction xs as [|x xs IH]; intros i; simpl; [reflexivity|]. now rewrite IH.
Qed.

Lemma mapi_from_map {A B C : Type} (f : nat -> A -> B) (g : B -> C)
    (h : nat -> A -> C) (xs : list A) :
  (forall i x, g (f i x) = h i x) ->
  forall i, map g (mapi_from f i xs) = mapi_from h i xs.
Proof.
  intros Hgh. induction xs as [|x xs IH]; intros i; simpl; [reflexivity|].
  now rewrite Hgh, IH.
Qed.

Lemma mapi_from_ignores_index {A C : Type} (h : A -> C) (xs : list A) :
  forall i, mapi_from (fun _ x => h x) i xs = map h xs.
Proof.
  induction xs as [|x xs IH]; intros i; simpl; [reflexivity|]. now rewrite IH.
Qed.

Lemma mapi_from_positions {A : Type} (xs : list A) :
  forall i, mapi_from (fun k (_ : A) => Position (k + 1)) i xs =
            map Position (seq (i + 1) (List.length xs)).
Proof.
  induction xs as [|x xs IH]; intros i; simpl; [reflexivity|].
  rewrite IH. reflexivity.
Qed.

Lemma mapi_from_In {A B : Type} (f : nat -> A -> B) (xs : list A) (b : B) :
  forall i, In b (mapi_from f i xs) <-> exists k x, In x xs /\ b = f k x /\
                                                    nth_error xs (k - i) = Some x /\
                                                    (i <= k)%nat.
Proof.
  induction xs as [|x xs IH]; intros i; simpl.
  - split; [tauto | intros (k & x & [] & _)].
  - rewrite IH. split.
    + intros [<-|(k & y & Hy & -> & Hn & Hk)].
      * exists i, x. rewrite Nat.sub_diag. simpl. auto.
      * exists k, y. replace (k - i)%nat with (S (k - S i)) by lia.
        simpl. repeat split; auto. lia.
    + intros (k & y & Hy & -> & Hn & Hk).
      destruct (Nat.eq_dec k i) as [->|Hne].
      * rewrite Nat.sub_diag in Hn. simpl in Hn. injection Hn as ->. now left.
      * right. exists k, y.
        replace (k - i)%nat with (S (k - S i)) in Hn by lia. simpl in Hn.
        destruct Hy as [->|Hy].
        -- repeat split; auto; [|lia]. eapply nth_error_In, Hn.
        -- repeat split; auto. lia.
Qed.

(** X17: the track list has one row per track, in the order of the
    registry, with the track's id and name; a row shows the equalizer
    exactly when it is highlighted and the player is playing, so while
    paused the rows are numbered 1, 2, 3, ...; and the empty-playlist
    notice is shown exactly when there is no row. *)
Theorem track_rows_follow_the_registry (s : State) :
  map row_key (trackRows s) = map id (tracks s) /\
  map row_name (trackRows s) = map name (tracks s) /\
  (forall r, In r (trackRows s) ->
     (row_badge r = Equalizer <->
      row_highlighted r = true /\ isPlaying s = true)) /\
  (isPlaying s = false ->
     map row_badge (trackRows s) =
       map Position (seq 1 (List.length (tracks s)))) /\
  (emptyNoticeShown s = true <-> trackRows s = []).
Proof.
  unfold trackRows. split; [|split; [|split; [|split]]].
  - rewrite (mapi_from_map _ row_key (fun _ t => id t)) by reflexivity.
    apply mapi_from_ignores_index.
  - rewrite (mapi_from_map _ row_name (fun _ t => name t)) by reflexivity.
    apply mapi_from_ignores_index.
  - intros r Hr. apply mapi_from_In in Hr.
    destruct Hr as (k & t & _ & -> & _). simpl.
    destruct (current_id_is (id t) s), (isPlaying s); simpl;
      split; try tauto; try discriminate; intros [? ?]; discriminate.
  - intros Hp.
    rewrite (mapi_from_map _ row_badge (fun k _ => Position (k + 1))).
    + apply (mapi_from_positions (tracks s) 0).
    + intros i t. simpl. rewrite Hp. now rewrite andb_false_r.
  - unfold emptyNoticeShown. rewrite Nat.eqb_eq.
    destruct (tracks s); simpl; split; congruence.
Qed.

Lemma track_rows_witness :
  map row_badge (trackRows (handle EvEnded two_tracks_playing)) =
    map Position (seq 1 (List.length (tracks (handle EvEnded two_tracks_playing)))).
Proof.
  apply (proj1 (proj2 (proj2 (proj2
           (track_rows_follow_the_registry (handle EvEnded two_tracks_playing)))))).
  reflexivity.
Defined.

Example track_rows_example :
  map row_badge (trackRows two_tracks_playing) = [Equalizer; Position 2] /\
  map row_time (trackRows two_tracks_playing) = ["3:00"; "4:00"] /\
  map row_highlighted (trackRows (removeTrack "t1" two_tracks_playing)) = [false].
Proof. repeat split. Qed.

(** X18: a current track that is in the registry has a highlighted row
    in the track list, with its id and name, and that row shows the
    equalizer while the player is playing. *)
Theorem current_track_has_a_highlighted_row (s : State) (c : Track) :
  currentTrack s = Some c -> In c (tracks s) ->
  exists r, In r (trackRows s) /\ row_key r = id c /\ row_name r = name c /\
            row_highlighted r = true /\
            (isPlaying s = true -> row_badge r = Equalizer).
Proof.
  intros Hc Hin.
  apply In_nth_error in Hin. destruct Hin as [k Hk].
  exists (trackRow s k c). split.
  - unfold trackRows. apply mapi_from_In. exists k, c.
    rewrite Nat.sub_0_r.
    split; [eapply nth_error_In, Hk|]. split; [reflexivity|].
    split; [exact Hk | lia].
  - simpl. rewrite (current_id_is_current s c Hc). repeat split.
    intros ->. reflexivity.
Qed.

Lemma highlighted_row_witness :
  exists r, In r (trackRows two_tracks_playing) /\ row_key r = id track1 /\
            row_name r = name track1 /\ row_highlighted r = true /\
            (isPlaying two_tracks_playing = true -> row_badge r = Equalizer).
Proof.
  apply (current_track_has_a_highlighted_row two_tracks_playing track1).
  - reflexivity.
  - left. reflexivity.
Defined.

(** ** File names *)

Lemma substring_whole (s : string) : substring 0 (String.length s) s = s.
Proof. induction s as [|c s IH]; simpl; [reflexivity|]. now rewrite IH. Qed.

Lemma substring_after_prefix (p suffix : string) :
  substring (String.length p) (String.length suffix) (p ++ suffix)%string = suffix.
Proof.
  induction p as [|c p IH]; simpl; [apply substring_whole | exact IH].
Qed.

Lemma string_length_append (p q : string) :
  String.length (p ++ q)%string = (String.length p + String.length q)%nat.
Proof. induction p as [|c p IH]; simpl; [reflexivity|]. now rewrite IH. Qed.

Lemma substring_split (s : string) :
  forall k, (k <= String.length s)%nat ->
  s = (substring 0 k s ++ substring k (String.length s - k) s)%string.
Proof.
  induction s as [|c s IH]; intros k Hk; simpl in *.
  - destruct k; [reflexivity | lia].
  - destruct k as [|k]; simpl.
    + now rewrite substring_whole.
    + rewrite <- IH by lia. reflexivity.
Qed.

Lemma endsWith_iff (s suffix : string) :
  JsString.endsWith s suffix = true <-> exists p, s = (p ++ suffix)%string.
Proof.
  unfold JsString.endsWith. split.
  - destruct (String.length suffix <=? String.length s)%nat eqn:E;
      [|discriminate].
    apply Nat.leb_le in E. intros H. apply String.eqb_eq in H.
    exists (substring 0 (String.length s - String.length suffix) s).
    rewrite (substring_split s (String.length s - String.length suffix)) at 1
      by lia.
    replace (String.length s - (String.length s - String.length suffix))%nat
      with (String.length suffix) by lia.
    now rewrite H.
  - intros [p ->]. rewrite string_length_append.
    replace (String.length suffix <=? String.length p + String.length suffix)%nat
      with true by (symmetry; apply Nat.leb_le; lia).
    replace (String.length p + String.length suffix - String.length suffix)%nat
      with (String.length p) by lia.
    rewrite substring_after_prefix. apply String.eqb_refl.
Qed.

(** X20: a file is accepted exactly when its type is [audio/mpeg] or
    [audio/mp3] or its name is some text followed by [.mp3]; so every name
    of that form is accepted whatever the declared type, and the test on the
    name is case-sensitive. *)
Theorem accepts_by_name_or_type (f : File) :
  (accepts f = true <->
   file_type f = "audio/mpeg" \/ file_type f = "audio/mp3" \/
   exists base, file_name f = (base ++ ".mp3")%string) /\
  (forall base ty, accepts (mkFile (base ++ ".mp3") ty) = true) /\
  accepts (mkFile "SONG.MP3" "") = false.
Proof.
  split; [|split].
  - rewrite accepts_iff, endsWith_iff. tauto.
  - intros base ty. apply accepts_iff. right. right.
    apply endsWith_iff. now exists base.
  - reflexivity.
Qed.

Lemma replace_cons (pattern replacement : string) (c : ascii) (s : string) :
  JsString.replace pattern replacement (String c s) =
  if prefix pattern (String c s)
  then (replacement ++ JsString.drop (String.length pattern) (String c s))%string
  else String c (JsString.replace pattern replacement s).
Proof. reflexivity. Qed.

Lemma prefix_cons (a b : ascii) (p s : string) :
  prefix (String a p) (String b s) =
  if ascii_dec a b then prefix p s else false.
Proof. reflexivity. Qed.

Lemma replace_mp3_skips (c : ascii) (s : string) :
  c <> "."%char ->
  JsString.replace ".mp3" "" (String c s) =
  String c (JsString.replace ".mp3" "" s).
Proof.
  intros Hc. rewrite replace_cons, prefix_cons.
  destruct (ascii_dec "." c) as [E|_]; [now elim Hc | reflexivity].
Qed.

Lemma replace_mp3_after_dotless (base rest : string) :
  dotless base ->
  JsString.replace ".mp3" "" (base ++ ".mp3" ++ rest)%string = (base ++ rest)%string.
Proof.
  induction base as [|c base IH]; intros Hd.
  - destruct rest; reflexivity.
  - destruct Hd as [Hc Hd].
    change (String c base ++ ".mp3" ++ rest)%string
      with (String c (base ++ ".mp3" ++ rest)).
    rewrite (replace_mp3_skips c _ Hc), (IH Hd). reflexivity.
Qed.

Lemma replace_mp3_dotless (s : string) :
  dotless s -> JsString.replace ".mp3" "" s = s.
Proof.
  induction s as [|c s IH]; intros Hd; [reflexivity|].
  destruct Hd as [Hc Hd].
  now rewrite (replace_mp3_skips c _ Hc), (IH Hd).
Qed.

(** X21: the display name of a track is the file name with its first
    [.mp3] cut out, wherever it stands: for a base name without a full stop,
    [base.mp3] becomes [base], [base.mp3.mp3] becomes [base.mp3], and a name
    with text after the extension keeps that text; a name without a full
    stop is kept as it is. *)
Theorem track_name_drops_first_mp3 (base rest ty u newId : string) (d : Q) :
  dotless base ->
  name (newTrack (mkPending (mkFile (base ++ ".mp3" ++ rest) ty) u) newId d)
    = (base ++ rest)%string /\
  name (newTrack (mkPending (mkFile (base ++ ".mp3") ty) u) newId d) = base /\
  name (newTrack (mkPending (mkFile base ty) u) newId d) = base.
Proof.
  intros Hd. unfold newTrack. simpl name. split; [|split].
  - now apply replace_mp3_after_dotless.
  - pose proof (replace_mp3_after_dotless base "" Hd) as H.
    replace (base ++ ".mp3" ++ "")%string with (base ++ ".mp3")%string in H
      by reflexivity.
    rewrite H. clear. induction base as [|c b IH]; simpl; [reflexivity|].
    now rewrite IH.
  - now apply replace_mp3_dotless.
Qed.

Lemma track_name_witness :
  name (newTrack (mkPending (mkFile ("track1" ++ ".mp3" ++ ".mp3") "audio/mpeg")
                    "blob:1") "t1" 180)
    = ("track1" ++ ".mp3")%string /\
  name (newTrack (mkPending (mkFile ("track1" ++ ".mp3") "audio/mpeg") "blob:1")
          "t1" 180) = "track1" /\
  name (newTrack (mkPending (mkFile "track1" "audio/mpeg") "blob:1") "t1" 180)
    = "track1".
Proof.
  apply (track_name_drops_first_mp3 "track1" ".mp3" "audio/mpeg" "blob:1" "t1" 180).
  simpl. repeat split; discriminate.
Defined.

(** ** More on the bars *)

Lemma Qmax_left (x y : Q) : y <= x -> Qmax x y = x.
Proof.
  intros H. unfold Qmax, GenericMinMax.gmax.
  destruct (x ?= y)%Q eqn:E; try reflexivity.
  apply Qlt_alt in E. lra.
Qed.

Lemma Qmax_right (x y : Q) : x < y -> Qmax x y = y.
Proof.
  intros H. unfold Qmax, GenericMinMax.gmax.
  destruct (x ?= y)%Q eqn:E; try reflexivity.
  - apply Qeq_alt in E. lra.
  - apply Qgt_alt in E. lra.
Qed.

Lemma level_scaled (q : Q) : q / 255 * 100 == q * (100 # 255).
Proof. field. Qed.

(** X22: the floor of 4 percent holds for the magnitudes up to 10; from
    11 on the bar is exactly value / 255 x 100 percent, 100 percent at full
    scale; and a louder bin never gives a shorter bar. *)
Theorem bar_level_shape (v w : Z) :
  in_byte_range v -> in_byte_range w ->
  ((v <= 10)%Z -> bar_level v = 4) /\
  ((11 <= v)%Z -> bar_level v = inject_Z v / 255 * 100 /\ 4 < bar_level v) /\
  bar_level 255 == 100 /\
  ((v <= w)%Z -> bar_level v <= bar_level w).
Proof.
  intros [Hv0 Hv1] [Hw0 Hw1]. unfold bar_level.
  split; [|split; [|split]].
  - intros H. apply Qmax_left. rewrite Zle_Qle in H.
    change (inject_Z 10) with 10 in H. rewrite level_scaled. lra.
  - intros H. rewrite Zle_Qle in H. change (inject_Z 11) with 11 in H.
    assert (Hlt : 4 < inject_Z v / 255 * 100) by (rewrite level_scaled; lra).
    rewrite (Qmax_right _ _ Hlt). split; [reflexivity | exact Hlt].
  - reflexivity.
  - intros H. apply Q.max_le_compat_l. rewrite Zle_Qle in H.
    rewrite !level_scaled. lra.
Qed.

Lemma bar_level_shape_witness :
  bar_level 7 = 4 /\
  (bar_level 200 = inject_Z 200 / 255 * 100 /\ 4 < bar_level 200) /\
  bar_level 7 <= bar_level 200.
Proof.
  assert (H7 : in_byte_range 7) by (unfold in_byte_range; lia).
  assert (H200 : in_byte_range 200) by (unfold in_byte_range; lia).
  destruct (bar_level_shape 7 200 H7 H200) as (Hlow & _ & _ & Hmono).
  destruct (bar_level_shape 200 7 H200 H7) as (_ & Hhigh & _ & _).
  split; [apply Hlow; lia|]. split; [apply Hhigh; lia | apply Hmono; lia].
Defined.

Lemma opacity_bounds (playing : bool) (v : Z) :
  in_byte_range v ->
  7 # 10 <= style_opacity (renderBar playing v) /\
  style_opacity (renderBar playing v) <= 1.
Proof.
  intros [H0 H1]. simpl. rewrite Zle_Qle in H0, H1.
  change (inject_Z 0) with 0 in H0. change (inject_Z 255) with 255 in H1.
  assert (E : inject_Z v / 255 == inject_Z v * (1 # 255)) by field.
  rewrite E. split; lra.
Qed.

Lemma snapshot_ok_reachable (s : State) : reachable s -> snapshot_ok s.
Proof.
  induction 1 as [a|s ev _ IH].
  - apply snapshot_ok_initial.
  - now apply snapshot_ok_handle.
Qed.

(** X23: whatever the component has gone through, the visualizer draws
    64 bars, each driven to a height between 4 and 100 percent and drawn
    with an opacity between 0.7 and 1; the glow is on exactly for the bins
    above 128. *)
Theorem rendered_bars_in_every_state (s : State) :
  reachable s ->
  let bars := renderBars (waveformData s) (isPlaying s) in
  List.length bars = 64%nat /\
  Forall (fun b =>
            (4 <= rendered_height b /\ rendered_height b <= 100) /\
            (4 <= style_height b /\ style_height b <= 100) /\
            (7 # 10 <= style_opacity b /\ style_opacity b <= 1)) bars /\
  map style_glow bars = map (fun v => (128 <? v)%Z) (waveformData s).
Proof.
  intros Hr. destruct (snapshot_ok_reachable s Hr) as (Hl & Hb & _).
  unfold renderBars. split; [|split].
  - now rewrite length_map.
  - apply Forall_map. eapply Forall_impl; [|exact Hb].
    intros v Hv. split; [|split].
    + unfold rendered_height. simpl. destruct (isPlaying s).
      * now apply bar_level_bounds.
      * split; discriminate.
    + simpl. now apply bar_level_bounds.
    + now apply opacity_bounds.
  - rewrite map_map. apply map_ext. intros v. simpl. apply Z.gtb_ltb.
Qed.

Lemma rendered_bars_witness :
  let bars := renderBars (waveformData playing_one_frame)
                (isPlaying playing_one_frame) in
  List.length bars = 64%nat /\
  Forall (fun b =>
            (4 <= rendered_height b /\ rendered_height b <= 100) /\
            (4 <= style_height b /\ style_height b <= 100) /\
            (7 # 10 <= style_opacity b /\ style_opacity b <= 1)) bars /\
  map style_glow bars =
    map (fun v => (128 <? v)%Z) (waveformData playing_one_frame).
Proof.
  apply (rendered_bars_in_every_state playing_one_frame).
  apply reachable_run, reach_initial.
Defined.
